(** * scale_images: square PNG thumbnails in two resize modes

    A shallow embedding of [scale_images.py].  The script is a thin driver
    over the Pillow imaging library: the geometry it computes (thumbnail
    sizes, crop boxes, paste offsets), its command line handling, the file
    selection and the per-file error boundary are embedded here as Rocq
    functions; Pillow's pixel kernels (resampling, mode conversion, alpha
    compositing), its decoders and its PNG encoder stay abstract behind the
    [Kernels] and [Codecs] interfaces. *)

From Stdlib Require Import ZArith QArith Qround Qabs Qminmax Lqa Lia Ascii.
From stdpp Require Import gmap strings list sorting pretty.

(** ** Pillow: the part of the imaging library the script calls *)

Module Pillow.
Local Open Scope Z_scope.

(** Image modes of Pillow. *)
Inductive Mode :=
  | Mode_1 | Mode_L | Mode_LA | Mode_La | Mode_P | Mode_PA
  | Mode_RGB | Mode_RGBA | Mode_RGBa | Mode_RGBX
  | Mode_CMYK | Mode_YCbCr | Mode_LAB | Mode_HSV | Mode_I | Mode_I16 | Mode_F.

Global Instance Mode_eq_dec : EqDecision Mode.
Proof. solve_decision. Defined.

(** [Image.Resampling]. *)
Inductive Resampling := NEAREST | BOX | BILINEAR | HAMMING | BICUBIC | LANCZOS.

Global Instance Resampling_eq_dec : EqDecision Resampling.
Proof. solve_decision. Defined.

(** A pixel in Pillow's four-byte storage: RGBA as (R, G, B, A) and LA as
    (L, L, L, A), so that the alpha band of both is the fourth component. *)
Definition Pixel : Type := Z * Z * Z * Z.

Definition alpha (p : Pixel) : Z := snd p.

(** A decoded raster.  [exif_orientation] is EXIF tag 0x0112 when present. *)
Record Image := mkImage {
  width : Z;
  height : Z;
  mode : Mode;
  exif_orientation : option Z;
  getpixel : Z -> Z -> Pixel
}.

Definition im_size (im : Image) : Z * Z := (width im, height im).

(** Every image that [Image.open] hands out has positive dimensions
    (ImageFile rejects the others as "not identified"). *)
Definition well_formed (im : Image) : Prop := 0 < width im /\ 0 < height im.

Definition well_formedb (im : Image) : bool := (0 <? width im) && (0 <? height im).

(** The pixel kernels of the library, which the script only passes around. *)
Class Kernels := {
  (** [resample f m data box size]: the raster of [size] obtained by
      resampling the region [box] of [data] (stored in mode [m]) with
      filter [f]. *)
  resample : Resampling -> Mode -> (Z -> Z -> Pixel) ->
             Z * Z * Z * Z -> Z * Z -> Z -> Z -> Pixel;
  (** [convert_pixel m m' p]: the pixel [p] of mode [m] converted to [m']. *)
  convert_pixel : Mode -> Mode -> Pixel -> Pixel;
  (** [blend dst src a]: [src] composited over [dst] with mask value [a]. *)
  blend : Pixel -> Pixel -> Z -> Pixel
}.

Section Operations.
Context `{K : Kernels}.

(** [Image.new(mode, size, color)] *)
Definition new (m : Mode) (size : Z * Z) (color : Pixel) : Image :=
  {| width := fst size; height := snd size; mode := m;
     exif_orientation := None; getpixel := fun _ _ => color |}.

(** [Image.copy()] *)
Definition copy (im : Image) : Image := im.

(** [Image.convert(mode)] *)
Definition convert (im : Image) (m : Mode) : Image :=
  {| width := width im; height := height im; mode := m;
     exif_orientation := exif_orientation im;
     getpixel := fun i j => convert_pixel (mode im) m (getpixel im i j) |}.

(** [Image.Transpose] *)
Inductive Transpose :=
  | FLIP_LEFT_RIGHT | FLIP_TOP_BOTTOM | ROTATE_90 | ROTATE_180 | ROTATE_270
  | TRANSPOSE | TRANSVERSE.

(** [Image.transpose(method)]: the quarter turns and the two diagonal
    flips exchange width and height. *)
Definition transpose (im : Image) (method : Transpose) : Image :=
  let w := width im in
  let h := height im in
  let px := getpixel im in
  match method with
  | FLIP_LEFT_RIGHT =>
      mkImage w h (mode im) (exif_orientation im) (fun i j => px (w - 1 - i) j)
  | FLIP_TOP_BOTTOM =>
      mkImage w h (mode im) (exif_orientation im) (fun i j => px i (h - 1 - j))
  | ROTATE_180 =>
      mkImage w h (mode im) (exif_orientation im) (fun i j => px (w - 1 - i) (h - 1 - j))
  | ROTATE_90 =>
      mkImage h w (mode im) (exif_orientation im) (fun i j => px (w - 1 - j) i)
  | ROTATE_270 =>
      mkImage h w (mode im) (exif_orientation im) (fun i j => px j (h - 1 - i))
  | TRANSPOSE =>
      mkImage h w (mode im) (exif_orientation im) (fun i j => px j i)
  | TRANSVERSE =>
      mkImage h w (mode im) (exif_orientation im) (fun i j => px (w - 1 - j) (h - 1 - i))
  end.

(** The table of [ImageOps.exif_transpose]: orientation value to method. *)
Definition orientation_method (orientation : Z) : option Transpose :=
  match orientation with
  | 2 => Some FLIP_LEFT_RIGHT
  | 3 => Some ROTATE_180
  | 4 => Some FLIP_TOP_BOTTOM
  | 5 => Some TRANSPOSE
  | 6 => Some ROTATE_270
  | 7 => Some TRANSVERSE
  | 8 => Some ROTATE_90
  | _ => None
  end.

(** [ImageOps.exif_transpose(image)]: a transposed copy with the orientation
    tag removed, or a plain copy when the tag asks for nothing. *)
Definition exif_transpose (image : Image) : Image :=
  let orientation := default 1 (exif_orientation image) in
  match orientation_method orientation with
  | Some method =>
      let transposed_image := transpose image method in
      mkImage (width transposed_image) (height transposed_image)
              (mode transposed_image) None (getpixel transposed_image)
  | None => copy image
  end.

(** [Image.crop(box)], [box = (x0, y0, x1, y1)] for left, upper, right and
    lower (with [x0 <= x1] and [y0 <= y1], as the boxes of the script
    are).  Pixels of the box that lie outside the image are zero-filled:
    that is the padding a crop box larger than the image would produce. *)
Definition crop (im : Image) (box : Z * Z * Z * Z) : Image :=
  let '(x0, y0, x1, y1) := box in
  {| width := x1 - x0; height := y1 - y0; mode := mode im;
     exif_orientation := exif_orientation im;
     getpixel := fun i j =>
       let sx := i + x0 in
       let sy := j + y0 in
       if (0 <=? sx) && (sx <? width im) && (0 <=? sy) && (sy <? height im)
       then getpixel im sx sy else (0, 0, 0, 0) |}.

(** [Image.resize(size, resample)]: a copy when the size is already right;
    bilevel and palette images are always resampled with NEAREST. *)
Definition resize (im : Image) (size : Z * Z) (filter : Resampling) : Image :=
  if decide (im_size im = size) then copy im
  else
    let filter := if decide (mode im = Mode_1 \/ mode im = Mode_P)
                  then NEAREST else filter in
    {| width := fst size; height := snd size; mode := mode im;
       exif_orientation := exif_orientation im;
       getpixel := resample filter (mode im) (getpixel im)
                            (0, 0, width im, height im) size |}.

(** [round_aspect] of [Image.thumbnail]: of the floor and the ceiling of
    [number] the one with the smaller key (the floor on a tie), at least 1. *)
Definition round_aspect (number : Q) (key : Z -> Q) : Z :=
  let fl := Qfloor number in
  let ce := Qceiling number in
  Z.max (if Qle_bool (key fl) (key ce) then fl else ce) 1.

(** [preserve_aspect_ratio] of [Image.thumbnail], with exact rationals in
    the place of Python's floats: [None] when the image already fits. *)
Definition preserve_aspect_ratio (im : Image) (size : Z * Z) : option (Z * Z) :=
  let '(x, y) := size in
  if (x >=? width im) && (y >=? height im) then None
  else
    let aspect := (inject_Z (width im) / inject_Z (height im))%Q in
    if Qle_bool aspect (inject_Z x / inject_Z y)%Q then
      Some (round_aspect (inject_Z y * aspect)%Q
              (fun n => Qabs (aspect - inject_Z n / inject_Z y)%Q), y)
    else
      Some (x, round_aspect (inject_Z x / aspect)%Q
              (fun n => if decide (n = 0) then 0%Q
                        else Qabs (aspect - inject_Z x / inject_Z n)%Q)).

(** [Image.thumbnail(size, resample)]: shrinks in place to fit [size],
    never enlarges. *)
Definition thumbnail (im : Image) (size : Z * Z) (filter : Resampling) : Image :=
  match preserve_aspect_ratio im size with
  | None => im
  | Some final_size =>
      if decide (im_size im = final_size) then im
      else resize im final_size filter
  end.

(** [Image.paste(im, (x, y), mask)] on a canvas: inside the pasted box the
    source, converted to the canvas mode, is composited by the alpha band
    of the mask; the rest of the canvas is left as it was. *)
Definition paste (canvas im : Image) (pos : Z * Z) (mask : Image) : Image :=
  let '(x, y) := pos in
  {| width := width canvas; height := height canvas; mode := mode canvas;
     exif_orientation := exif_orientation canvas;
     getpixel := fun i j =>
       if (x <=? i) && (i <? x + width im) && (y <=? j) && (j <? y + height im)
       then
         let p := getpixel im (i - x) (j - y) in
         let src :=
           if decide (mode canvas <> mode im /\
                      (mode canvas <> Mode_RGB \/
                       ~ (mode im = Mode_LA \/ mode im = Mode_RGBA \/ mode im = Mode_RGBa)))
           then convert_pixel (mode im) (mode canvas) p else p in
         blend (getpixel canvas i j) src (alpha (getpixel mask (i - x) (j - y)))
       else getpixel canvas i j |}.

End Operations.
End Pillow.

(** ** Strings and paths: the [str] and [pathlib] operations of the script *)

Module Py.

(** [str.lower()] on the ASCII letters.  The strings the script compares
    the result with ("fit", "cover", "--mode=", the suffix allow-list) hold
    none of the ASCII letters that a non-ASCII character lowers to, so the
    byte-wise version decides the same tests. *)
Definition lower_char (c : ascii) : ascii :=
  let n := nat_of_ascii c in
  if (65 <=? n)%nat && (n <=? 90)%nat then ascii_of_nat (n + 32) else c.

Fixpoint lower (s : string) : string :=
  match s with
  | EmptyString => EmptyString
  | String c s' => String (lower_char c) (lower s')
  end.

(** [s.startswith(prefix)] *)
Fixpoint startswith (s prefix : string) : bool :=
  match prefix, s with
  | EmptyString, _ => true
  | String a prefix', String b s' => if decide (a = b) then startswith s' prefix' else false
  | String _ _, EmptyString => false
  end.

(** [s.split(sep, 1)] for a one-character separator. *)
Fixpoint split1 (s : string) (sep : ascii) : list string :=
  match s with
  | EmptyString => [EmptyString]
  | String c s' =>
      if decide (c = sep) then [EmptyString; s']
      else match split1 s' sep with
           | hd :: tl => String c hd :: tl
           | [] => [String c EmptyString]
           end
  end.

(** [s.rfind(c)]: the index of the last occurrence, -1 when there is none. *)
Fixpoint rfind (s : string) (c : ascii) : Z :=
  match s with
  | EmptyString => (-1)%Z
  | String a s' =>
      let r := rfind s' c in
      if (0 <=? r)%Z then (r + 1)%Z else if decide (a = c) then 0%Z else (-1)%Z
  end.

(** [s[i:]] and [s[:i]] for [0 <= i]. *)
Fixpoint drop_str (i : nat) (s : string) : string :=
  match i, s with
  | O, _ => s
  | S i', String _ s' => drop_str i' s'
  | S _, EmptyString => EmptyString
  end.

Fixpoint take_str (i : nat) (s : string) : string :=
  match i, s with
  | O, _ => EmptyString
  | S i', String c s' => String c (take_str i' s')
  | S _, EmptyString => EmptyString
  end.

(** A [pathlib.Path] below a resolved directory. *)
Record Path := mkPath { parent : string; name : string }.

Global Instance Path_eq_dec : EqDecision Path.
Proof. solve_decision. Defined.

(** [str(path)] *)
Definition path_str (p : Path) : string :=
  if decide (parent p = "/") then "/" +:+ name p else parent p +:+ "/" +:+ name p.

(** [PurePath.suffix]: the last dot and what follows it, unless the dot is
    the first or the last character of the name. *)
Definition suffix (p : Path) : string :=
  let i := rfind (name p) "." in
  if (0 <? i)%Z && (i <? Z.of_nat (String.length (name p)) - 1)%Z
  then drop_str (Z.to_nat i) (name p) else "".

(** [PurePath.stem]: the name without that suffix. *)
Definition stem (p : Path) : string :=
  let i := rfind (name p) "." in
  if (0 <? i)%Z && (i <? Z.of_nat (String.length (name p)) - 1)%Z
  then take_str (Z.to_nat i) (name p) else name p.

(** The order [sorted] uses on the paths of one directory. *)
Definition Path_le (p q : Path) : Prop := (name p ≤ name q)%string.

Global Instance Path_le_dec : RelDecision Path_le.
Proof. intros p q. unfold Path_le. apply _. Defined.

End Py.

(** ** The world the script runs in: files, console, exceptions *)

Module Sys.

Definition bytes : Type := list Byte.byte.

(** An entry of a directory listing: a regular file with its contents, or
    a sub-directory (what [is_file()] rejects and [open(.., "wb")] cannot
    overwrite). *)
Inductive entry :=
  | RegularFile (data : bytes)
  | Directory.

(** What a resolved path denotes: a regular file, or a directory with the
    entries it holds.  The script reads one directory and writes into one;
    the directories below them are entries of their listings, and the ones
    above them ([mkdir] would create the missing ones) are left out. *)
Inductive node :=
  | File (data : bytes)
  | Dir (listing : gmap string entry).

(** The observable effects of a run, in order: the lines printed and the
    files written. *)
Inductive event :=
  | Print (line : string)
  | Write (path : Py.Path) (data : bytes).

(** The file system, by resolved path, and the effects so far. *)
Record World := mkWorld {
  files : gmap string node;
  trace : list event
}.

(** [Exception] and [SystemExit]: [except Exception] catches the first
    only. *)
Inductive exn :=
  | Exception (msg : string)
  | SystemExit (code : Z).

(** Computations of the script: a world in, a value or a raised exception
    and the world as it is then out. *)
Definition M (A : Type) : Type := World -> (exn + A) * World.

Definition ret {A} (a : A) : M A := fun w => (inr a, w).

Definition bind {A B} (m : M A) (f : A -> M B) : M B :=
  fun w => match m w with
           | (inl e, w') => (inl e, w')
           | (inr a, w') => f a w'
           end.

Definition raise {A} (e : exn) : M A := fun w => (inl e, w).

(** [try: body  except Exception as e: handler(e)] *)
Definition try_except {A} (body : M A) (handler : string -> M A) : M A :=
  fun w => match body w with
           | (inl (Exception msg), w') => handler msg w'
           | r => r
           end.

Declare Scope script_scope.
Delimit Scope script_scope with script.
Notation "x <- m ;;; k" := (bind m (fun x => k))
  (at level 100, m at next level, right associativity) : script_scope.
Notation "m ;;; k" := (bind m (fun _ => k))
  (at level 100, right associativity) : script_scope.
Local Open Scope script_scope.

(** [for x in l: body(x)] *)
Fixpoint for_each {A} (l : list A) (body : A -> M unit) : M unit :=
  match l with
  | [] => ret tt
  | x :: l' => body x ;;; for_each l' body
  end.

(** [if c: body] *)
Definition when (c : bool) (body : M unit) : M unit :=
  if c then body else ret tt.

Definition print (line : string) : M unit :=
  fun w => (inr tt, mkWorld (files w) (trace w ++ [Print line])).

Definition sys_exit {A} (code : Z) : M A := raise (SystemExit code).

(** [l[i]] *)
Definition getitem (l : list string) (i : nat) : M string :=
  match l !! i with
  | Some x => ret x
  | None => raise (Exception "list index out of range")
  end.

(** [p.exists() and p.is_dir()] *)
Definition is_dir (p : string) : M bool :=
  fun w => (inr (match files w !! p with Some (Dir _) => true | _ => false end), w).

(** [p.mkdir(parents=True, exist_ok=True)]: fails on an existing path that
    is not a directory. *)
Definition mkdir (p : string) : M unit :=
  fun w => match files w !! p with
           | None => (inr tt, mkWorld (<[p := Dir ∅]> (files w)) (trace w))
           | Some (Dir _) => (inr tt, w)
           | Some (File _) =>
               (inl (Exception ("[Errno 17] File exists: '" +:+ p +:+ "'")), w)
           end.

(** [p.iterdir()], each path with the answer of its [is_file()]. *)
Definition iterdir (p : string) : M (list (Py.Path * bool)) :=
  fun w => match files w !! p with
           | Some (Dir listing) =>
               (inr ((fun '(n, e) => (Py.mkPath p n,
                        match e with RegularFile _ => true | Directory => false end))
                     <$> map_to_list listing), w)
           | _ => (inl (Exception ("[Errno 20] Not a directory: '" +:+ p +:+ "'")), w)
           end.

(** [open(path, "rb").read()] *)
Definition read_file (p : Py.Path) : M bytes :=
  fun w => match files w !! Py.parent p with
           | Some (Dir listing) =>
               match listing !! Py.name p with
               | Some (RegularFile data) => (inr data, w)
               | Some Directory =>
                   (inl (Exception ("[Errno 21] Is a directory: '" +:+ Py.path_str p +:+ "'")), w)
               | None =>
                   (inl (Exception ("[Errno 2] No such file or directory: '"
                                    +:+ Py.path_str p +:+ "'")), w)
               end
           | _ => (inl (Exception ("[Errno 2] No such file or directory: '"
                                   +:+ Py.path_str p +:+ "'")), w)
           end.

(** [open(path, "wb").write(data)]: creates or replaces a regular file,
    fails on a directory or below a missing one. *)
Definition write_file (p : Py.Path) (data : bytes) : M unit :=
  fun w => match files w !! Py.parent p with
           | Some (Dir listing) =>
               match listing !! Py.name p with
               | Some Directory =>
                   (inl (Exception ("[Errno 21] Is a directory: '" +:+ Py.path_str p +:+ "'")), w)
               | _ =>
                   (inr tt,
                    mkWorld (<[Py.parent p := Dir (<[Py.name p := RegularFile data]> listing)]>
                               (files w))
                            (trace w ++ [Write p data]))
               end
           | _ => (inl (Exception ("[Errno 2] No such file or directory: '"
                                   +:+ Py.path_str p +:+ "'")), w)
           end.

(** What lies outside the script and Pillow's geometry: the decoders, the
    PNG encoder and path resolution. *)
Class Codecs := {
  (** [Image.open(path)] followed by the (lazy) load: the raster, or the
      message of the exception a damaged or unsupported file raises. *)
  decode : bytes -> string + Pillow.Image;
  (** [save(format="PNG", optimize=True)] *)
  encode_png : Pillow.Image -> bytes;
  (** [Path(arg).expanduser().resolve()] *)
  resolve : string -> string
}.

End Sys.

(** ** The script *)

Module Script.
Import Pillow Py Sys.
Local Open Scope script_scope.

Definition SIZES : list Z := [1024; 512; 256; 128; 64; 32]%Z.

Definition SUPPORTED_SUFFIXES : list string :=
  [".jpg"; ".jpeg"; ".png"; ".webp"; ".bmp"; ".tif"; ".tiff"; ".heic"].

(** The module docstring, which [main] prints as the usage text. *)
Definition __doc__ : string :=
"
Scale images in a folder to multiple square sizes and save as PNG into a single output folder.

Usage:
  python scale_images.py input output

- fit  (default): Bild proportional verkleinern und transparent auf Quadrat „einpassen“.
- cover: Bild mittig auf Quadrat zuschneiden (ohne Ränder) und dann skalieren.
".

Section WithPillow.
Context `{K : Kernels} `{C : Codecs}.

Definition make_square_fit (img : Image) (size : Z) : Image :=
  let img := exif_transpose img in
  let img := if decide (mode img = Mode_RGBA \/ mode img = Mode_LA) then img
             else convert img Mode_RGBA in
  let img_thumb := thumbnail (copy img) (size, size) LANCZOS in
  let canvas := new Mode_RGBA (size, size) (0, 0, 0, 0)%Z in
  let x := ((size - width img_thumb) `div` 2)%Z in
  let y := ((size - height img_thumb) `div` 2)%Z in
  paste canvas img_thumb (x, y) img_thumb.

Definition make_square_cover (img : Image) (size : Z) : Image :=
  let img := exif_transpose img in
  let '(w, h) := im_size img in
  let side := Z.min w h in
  let left := ((w - side) `div` 2)%Z in
  let top := ((h - side) `div` 2)%Z in
  let img_cropped := crop img (left, top, left + side, top + side)%Z in
  let img_cropped := resize img_cropped (size, size) LANCZOS in
  if decide (mode img_cropped = Mode_RGBA \/ mode img_cropped = Mode_LA) then img_cropped
  else convert img_cropped Mode_RGBA.

(** [Image.open(path)]: the file is read and decoded; what the decoder
    rejects, and a raster without positive dimensions, raise. *)
Definition Image_open (in_path : Path) : M Image :=
  data <- read_file in_path ;;;
  match decode data with
  | inl msg => raise (Exception msg)
  | inr img =>
      if well_formedb img then ret img
      else raise (Exception ("cannot identify image file '" +:+ path_str in_path +:+ "'"))
  end.

(** [img.save(path, format="PNG", optimize=True)] *)
Definition Image_save (img : Image) (out_path : Path) : M unit :=
  write_file out_path (encode_png img).

Definition process_image (in_path : Path) (out_dir : string) (mode : string) : M unit :=
  try_except
    (img <- Image_open in_path ;;;
     for_each SIZES (fun s =>
       let out_img := if decide (mode = "cover") then make_square_cover img s
                      else make_square_fit img s in
       let out_name := stem in_path +:+ "_" +:+ pretty s +:+ "x" +:+ pretty s +:+ ".png" in
       let out_path := mkPath out_dir out_name in
       Image_save out_img out_path) ;;;
     print ("OK  : " +:+ name in_path))
    (fun e => print ("FEHLER bei " +:+ path_str in_path +:+ ": " +:+ e)).

Definition main (argv : list string) : M unit :=
  when (length argv <? 3)%nat
    (print __doc__ ;;; sys_exit 1) ;;;
  arg1 <- getitem argv 1 ;;;
  let in_dir := resolve arg1 in
  arg2 <- getitem argv 2 ;;;
  let out_dir := resolve arg2 in
  let mode := "fit" in
  mode <- (if (4 <=? length argv)%nat then
             arg3 <- getitem argv 3 ;;;
             let m := lower arg3 in
             mode <- (if bool_decide (m ∈ ["fit"; "--mode=fit"]) then ret "fit"
                      else if bool_decide (m ∈ ["cover"; "--mode=cover"]) then ret "cover"
                      else if startswith m "--mode=" then getitem (split1 m "=") 1
                      else ret m) ;;;
             when (negb (bool_decide (mode ∈ ["fit"; "cover"])))
               (print "Ungültiger --mode. Erlaubt: fit | cover" ;;; sys_exit 2) ;;;
             ret mode
           else ret mode) ;;;
  d <- is_dir in_dir ;;;
  when (negb d)
    (print ("Eingabeordner nicht gefunden: " +:+ in_dir) ;;; sys_exit 1) ;;;
  mkdir out_dir ;;;
  entries <- iterdir in_dir ;;;
  let images :=
    merge_sort Path_le
      (fst <$> filter (fun '(p, is_file) =>
                         is_file = true /\ lower (suffix p) ∈ SUPPORTED_SUFFIXES) entries) in
  when (bool_decide (images = []))
    (print "Keine unterstützten Bilddateien im Eingabeordner gefunden." ;;; sys_exit 0) ;;;
  print ("Verarbeite " +:+ pretty (length images) +:+ " Dateien aus " +:+ in_dir
         +:+ " → " +:+ out_dir +:+ " (mode=" +:+ mode +:+ ")") ;;;
  for_each images (fun p => process_image p out_dir mode).

(** The exit status of the interpreter: that of [sys.exit], 1 for an
    uncaught exception, 0 when [main] returns. *)
Definition exit_status (r : exn + unit) : Z :=
  match r with
  | inr _ => 0
  | inl (SystemExit code) => code
  | inl (Exception _) => 1
  end%Z.

Definition run (argv : list string) (w : World) : Z * World :=
  let '(r, w') := main argv w in (exit_status r, w').

End WithPillow.

(** The lines printed and the files written, read off a trace. *)
Definition stdout (t : list event) : list string :=
  omap (fun e => match e with Print line => Some line | _ => None end) t.

Definition writes (t : list event) : list (Path * bytes) :=
  omap (fun e => match e with Write p data => Some (p, data) | _ => None end) t.

End Script.

(** ** Vocabulary of the properties *)

Module Spec.
Import Pillow Py Sys Script.
Local Open Scope script_scope.

Section WithPillow.
Context `{K : Kernels}.

(** The image [make_square_fit] hands to [thumbnail]: the normalised
    source, with an alpha band. *)
Definition fit_source (img : Image) : Image :=
  let src := exif_transpose img in
  if decide (mode src = Mode_RGBA \/ mode src = Mode_LA) then src
  else convert src Mode_RGBA.

(** The local [img_thumb] of [make_square_fit]: the content that is pasted
    on the canvas. *)
Definition fit_thumb (img : Image) (size : Z) : Image :=
  let img := exif_transpose img in
  let img := if decide (mode img = Mode_RGBA \/ mode img = Mode_LA) then img
             else convert img Mode_RGBA in
  thumbnail (copy img) (size, size) LANCZOS.

End WithPillow.

Section WithCodecs.
Context `{K : Kernels} `{C : Codecs}.

(** The transform [process_image] applies in a mode. *)
Definition transform (mode : string) (img : Image) (s : Z) : Image :=
  if decide (mode = "cover") then make_square_cover img s else make_square_fit img s.

(** The path [process_image] saves the output of one size to. *)
Definition out_path (in_path : Path) (out_dir : string) (s : Z) : Path :=
  mkPath out_dir (stem in_path +:+ "_" +:+ pretty s +:+ "x" +:+ pretty s +:+ ".png").

(** The six output paths of an input file. *)
Definition outputs (in_path : Path) (out_dir : string) : list Path :=
  out_path in_path out_dir <$> SIZES.

(** The two status lines. *)
Definition ok_line (in_path : Path) : string := "OK  : " +:+ name in_path.

Definition error_line (in_path : Path) (e : string) : string :=
  "FEHLER bei " +:+ path_str in_path +:+ ": " +:+ e.

Definition status_line (in_path : Path) (line : string) : Prop :=
  line = ok_line in_path \/ exists e, line = error_line in_path e.

(** The line that announces the batch. *)
Definition header_line (n : nat) (in_dir out_dir mode : string) : string :=
  "Verarbeite " +:+ pretty n +:+ " Dateien aus " +:+ in_dir
  +:+ " → " +:+ out_dir +:+ " (mode=" +:+ mode +:+ ")".


(** One pass of the loop of [process_image]. *)
Definition save_output (img : Image) (in_path : Path) (out_dir mode : string) (s : Z) : M unit :=
  Image_save (transform mode img s) (out_path in_path out_dir s).

(** The writes of the first [k] passes of that loop. *)
Definition file_writes (img : Image) (in_path : Path) (out_dir mode : string) (k : nat)
    : list event :=
  (fun s => Write (out_path in_path out_dir s) (encode_png (transform mode img s)))
  <$> take k SIZES.

(** What the processing of one file adds to the trace: an error line alone
    when the file cannot be opened or decoded; the writes of the sizes
    before the failing one and an error line when a save fails; the six
    writes and the OK line otherwise. *)
Inductive file_report (out_dir mode : string) (in_path : Path) : list event -> Prop :=
  | report_open_error (e : string) :
      file_report out_dir mode in_path [Print (error_line in_path e)]
  | report_save_error (img : Image) (k : nat) (e : string) :
      well_formed img -> (k < length SIZES)%nat ->
      file_report out_dir mode in_path
        (file_writes img in_path out_dir mode k ++ [Print (error_line in_path e)])
  | report_ok (img : Image) :
      well_formed img ->
      file_report out_dir mode in_path
        (file_writes img in_path out_dir mode (length SIZES) ++ [Print (ok_line in_path)]).

(** The loop of [main] over the matched files. *)
Definition process_all (images : list Path) (out_dir mode : string) : M unit :=
  for_each images (fun p => process_image p out_dir mode).

(** The files [main] matches in a listing of the input directory, in the
    order it processes them. *)
Definition select_images (in_dir : string) (listing : gmap string entry) : list Path :=
  merge_sort Path_le
    (fst <$> filter (fun '(p, is_file) =>
                       is_file = true /\ lower (suffix p) ∈ SUPPORTED_SUFFIXES)
               ((fun '(n, e) => (mkPath in_dir n,
                                 match e with RegularFile _ => true | Directory => false end))
                <$> map_to_list listing)).

(** The mode a third argument stands for, when it is an accepted one. *)
Definition accepted_mode (arg : string) : option string :=
  let m := lower arg in
  if bool_decide (m ∈ ["fit"; "--mode=fit"]) then Some "fit"
  else if bool_decide (m ∈ ["cover"; "--mode=cover"]) then Some "cover"
  else None.

(** The mode of an invocation: that of the third argument, "fit" without
    one. *)
Definition mode_of_args (argv : list string) : option string :=
  match argv !! 3%nat with
  | None => Some "fit"
  | Some arg => accepted_mode arg
  end.

(** The block of [main] that settles the mode, for the third argument if
    there is one. *)
Definition parse_mode (arg3 : option string) : M string :=
  match arg3 with
  | None => ret "fit"
  | Some arg3 =>
      let m := lower arg3 in
      mode <- (if bool_decide (m ∈ ["fit"; "--mode=fit"]) then ret "fit"
               else if bool_decide (m ∈ ["cover"; "--mode=cover"]) then ret "cover"
               else if startswith m "--mode=" then getitem (split1 m "=") 1
               else ret m) ;;;
      when (negb (bool_decide (mode ∈ ["fit"; "cover"])))
        (print "Ungültiger --mode. Erlaubt: fit | cover" ;;; sys_exit 2) ;;;
      ret mode
  end.

(** The rest of [main] once the matched files are listed. *)
Definition batch (images : list Path) (in_dir out_dir mode : string) : M unit :=
  when (bool_decide (images = []))
    (print "Keine unterstützten Bilddateien im Eingabeordner gefunden." ;;; sys_exit 0) ;;;
  print (header_line (length images) in_dir out_dir mode) ;;;
  process_all images out_dir mode.

(** [main] from the check of the input directory on. *)
Definition check_and_batch (in_dir out_dir mode : string) : M unit :=
  d <- is_dir in_dir ;;;
  when (negb d)
    (print ("Eingabeordner nicht gefunden: " +:+ in_dir) ;;; sys_exit 1) ;;;
  mkdir out_dir ;;;
  entries <- iterdir in_dir ;;;
  batch (merge_sort Path_le
           (fst <$> filter (fun '(p, is_file) =>
                              is_file = true /\ lower (suffix p) ∈ SUPPORTED_SUFFIXES)
                      entries))
        in_dir out_dir mode.

(** The world after [out_dir.mkdir(parents=True, exist_ok=True)]
    succeeded. *)
Definition with_dir (out_dir : string) (w : World) : World :=
  match files w !! out_dir with
  | None => mkWorld (<[out_dir := Dir ∅]> (files w)) (trace w)
  | Some _ => w
  end.

(** What [Image.open] makes of a path, read off the listing of its
    directory: the message of the error it raises, or the image. *)
Definition open_result (listing : gmap string entry) (p : Path) : string + Image :=
  match listing !! name p with
  | Some (RegularFile data) =>
      match decode data with
      | inl msg => inl msg
      | inr img =>
          if well_formedb img then inr img
          else inl ("cannot identify image file '" +:+ path_str p +:+ "'")
      end
  | Some Directory => inl ("[Errno 21] Is a directory: '" +:+ path_str p +:+ "'")
  | None => inl ("[Errno 2] No such file or directory: '" +:+ path_str p +:+ "'")
  end.

(** Whether a name of a listing is taken by a sub-directory. *)
Definition is_directory (listing : gmap string entry) (n : string) : bool :=
  match listing !! n with Some Directory => true | _ => false end.

(** The loop of [process_image] over the sizes [ss], read off the listing
    [lo] of the output directory: the writes up to the first output whose
    name is a sub-directory, and the message of the error raised there. *)
Fixpoint save_events (lo : gmap string entry) (img : Image) (p : Path)
    (out_dir mode : string) (ss : list Z) : list event * option string :=
  match ss with
  | [] => ([], None)
  | s :: ss' =>
      let q := out_path p out_dir s in
      if is_directory lo (name q)
      then ([], Some ("[Errno 21] Is a directory: '" +:+ path_str q +:+ "'"))
      else
        let '(evs, r) := save_events lo img p out_dir mode ss' in
        (Write q (encode_png (transform mode img s)) :: evs, r)
  end.

(** The events of the processing of one file, read off the listings of
    the input and of the output directory. *)
Definition file_events (listing lo : gmap string entry) (p : Path)
    (out_dir mode : string) : list event :=
  match open_result listing p with
  | inl e => [Print (error_line p e)]
  | inr img =>
      let '(evs, r) := save_events lo img p out_dir mode SIZES in
      evs ++ [Print (match r with None => ok_line p | Some e => error_line p e end)]
  end.

(** The events of the loop of [main] over the matched files. *)
Definition batch_events (listing lo : gmap string entry) (images : list Path)
    (out_dir mode : string) : list event :=
  concat ((fun p => file_events listing lo p out_dir mode) <$> images).

(** A listing after a sequence of writes into its directory. *)
Definition apply_writes (ws : list (Path * bytes)) (lo : gmap string entry)
    : gmap string entry :=
  foldl (fun l '(q, d) => <[name q := RegularFile d]> l) lo ws.

(** The data of the last write to a name, if any. *)
Definition last_write (n : string) (ws : list (Path * bytes)) : option bytes :=
  foldl (fun r '(q, d) => if decide (name q = n) then Some d else r) None ws.

(** [s.rpartition(c)] without the separator: what stands before and after
    the last [c] of [s]. *)
Fixpoint rsplit (s : string) (c : ascii) : option (string * string) :=
  match s with
  | EmptyString => None
  | String a s' =>
      match rsplit s' c with
      | Some (before, after) => Some (String a before, after)
      | None => if decide (a = c) then Some (EmptyString, s') else None
      end
  end.

(** What follows the stem and the underscore in the name of the output of
    one size. *)
Definition tail (s : Z) : string := pretty s +:+ "x" +:+ pretty s +:+ ".png".

(** Whether a character occurs in a string. *)
Fixpoint occurs (c : ascii) (s : string) : bool :=
  match s with
  | EmptyString => false
  | String a s' => if decide (a = c) then true else occurs c s'
  end.

(** An invocation that gets past the checks of the arguments, of the input
    directory and past the creation of the output directory. *)
Record batch_run (argv : list string) (w : World)
    (in_dir out_dir mode : string) (listing : gmap string entry) : Prop := {
  br_in_dir : resolve <$> argv !! 1%nat = Some in_dir;
  br_out_dir : resolve <$> argv !! 2%nat = Some out_dir;
  br_mode : mode_of_args argv = Some mode;
  br_listing : files w !! in_dir = Some (Dir listing);
  br_mkdir : forall data, files w !! out_dir <> Some (File data)
}.

(** The events a run adds to the trace of the world it starts in. *)
Definition new_events (w w' : World) : list event :=
  drop (length (trace w)) (trace w').

End WithCodecs.

(** The largest factor that scales an image into a box of [size]. *)
Definition scale_factor (size : Z * Z) (im : Image) : Q :=
  Qmin (inject_Z (fst size) / inject_Z (width im))
       (inject_Z (snd size) / inject_Z (height im)).

(** The factor by which fit mode scales: that one, but never above 1. *)
Definition fit_scale (im : Image) (size : Z) : Q :=
  Qmin 1 (scale_factor (size, size) im).

End Spec.

(** ** Concrete kernels, codecs and directories to run the script on *)

Module Examples.
Import Pillow Py Sys Script.

(** Nearest-neighbour resampling, conversion that keeps the bands, and the
    integer alpha compositing of 8-bit bands. *)
Definition div255 (a : Z) : Z := (((a + 128) ≫ 8 + (a + 128)) ≫ 8)%Z.

Definition blend_band (dst src a : Z) : Z := div255 (dst * (255 - a) + src * a)%Z.

Definition simple_kernels : Kernels := {|
  resample := fun _ _ data box size i j =>
    let '(x0, y0, x1, y1) := box in
    data (x0 + i * (x1 - x0) `div` fst size)%Z (y0 + j * (y1 - y0) `div` snd size)%Z;
  convert_pixel := fun _ _ p => p;
  blend := fun dst src a =>
    let '(r0, g0, b0, a0) := dst in
    let '(r1, g1, b1, a1) := src in
    (blend_band r0 r1 a, blend_band g0 g1 a, blend_band b0 b1 a, blend_band a0 a1 a)
|}.

(** A two-byte picture format: width, then height, of an opaque raster of
    one colour that the two bytes determine; anything else is not an image.
    The encoder writes the two dimensions and the red band of the centre
    pixel. *)
Definition byte_Z (b : Byte.byte) : Z := Z.of_N (Byte.to_N b).

Definition Z_byte (z : Z) : Byte.byte := default Byte.x00 (Byte.of_N (Z.to_N (z `mod` 256))).

Definition simple_codecs : Codecs := {|
  decode := fun data =>
    match data with
    | [w; h] => inr (mkImage (byte_Z w) (byte_Z h) Mode_RGB None
                       (fun _ _ => (byte_Z w, byte_Z h, 0, 255)%Z))
    | _ => inl "cannot identify image file"
    end;
  encode_png := fun img =>
    [Z_byte (width img); Z_byte (height img);
     Z_byte (fst (fst (fst (getpixel img (width img `div` 2) (height img `div` 2)))))%Z];
  resolve := fun p => p
|}.

#[local] Existing Instance simple_kernels.
#[local] Existing Instance simple_codecs.

(** An 800 x 600 photograph, without an orientation tag and with the tag
    of a camera turned by a quarter, and a small icon. *)
Definition photo : Image :=
  mkImage 800 600 Mode_RGB None (fun i j => (i `mod` 256, j `mod` 256, 0, 255)%Z).

Definition photo_rotated : Image :=
  mkImage 800 600 Mode_RGB (Some 6%Z) (fun i j => (i `mod` 256, j `mod` 256, 0, 255)%Z).

Definition icon : Image :=
  mkImage 20 10 Mode_RGBA None (fun i j => (i, j, 0, 255)%Z).

(** Input directories. *)
Definition good : bytes := [Byte.x50; Byte.x28].

Definition other : bytes := [Byte.x28; Byte.x50].

Definition broken : bytes := [Byte.x00].


Definition world_of (listing : gmap string entry) : World :=
  mkWorld {[ "/in" := Dir listing ]} [].

Definition two_photos : gmap string entry :=
  {[ "b.PNG" := RegularFile good; "a.jpg" := RegularFile other;
     "notes.txt" := RegularFile broken; "sub.png" := Directory ]}.

Definition same_stem : gmap string entry :=
  {[ "photo.jpg" := RegularFile good; "photo.png" := RegularFile other ]}.


(** An output directory in which the name of one output is taken by a
    sub-directory. *)
Definition blocked_world : World :=
  mkWorld {[ "/in" := Dir {[ "a.png" := RegularFile good ]};
             "/out" := Dir {[ "a_512x512.png" := Directory ]} ]} [].

(** An empty input directory and an output path that is a regular file. *)
Definition out_is_file_world : World :=
  mkWorld {[ "/in" := Dir ∅; "/out" := File [] ]} [].

End Examples.

(** ** More pictures and directories *)

Module MoreExamples.
Import Pillow Py Sys Script Examples.

(** A 32 x 32 tile with an alpha band. *)
Definition tile : Image :=
  mkImage 32 32 Mode_RGBA None (fun i j => (i, j, 0, 255)%Z).

(** A run whose output directory is its input directory. *)
Definition in_place_args : list string := ["prog"; "/in"; "/in"].

End MoreExamples.

(** ** Geometry of the Pillow operations *)

Module Geometry.
Import Pillow Spec.
Local Open Scope Z_scope.

Lemma inject_Z_pos (z : Z) : 0 < z -> (0 < inject_Z z)%Q.
Proof. intros. unfold Qlt; simpl; lia. Qed.

Lemma inject_Z_le (a b : Z) : a <= b <-> (inject_Z a <= inject_Z b)%Q.
Proof. unfold Qle; simpl; lia. Qed.

Lemma inject_Z_lt (a b : Z) : a < b <-> (inject_Z a < inject_Z b)%Q.
Proof. unfold Qlt; simpl; lia. Qed.

(** [round_aspect] stays within one of the number it rounds, is at least 1
    and does not pass an integer bound of that number. *)
Lemma round_aspect_spec (number : Q) (key : Z -> Q) :
  (0 < number)%Q ->
  1 <= round_aspect number key /\
  (Qabs (inject_Z (round_aspect number key) - number) < 1)%Q /\
  (forall n : Z, (number <= inject_Z n)%Q -> 1 <= n -> round_aspect number key <= n).
Proof.
  intros Hpos. unfold round_aspect.
  pose proof (Qfloor_le number) as Hfl.
  pose proof (Qlt_floor number) as Hfl'.
  pose proof (Qle_ceiling number) as Hce.
  pose proof (Qceiling_lt number) as Hce'.
  pose proof (Qle_floor_ceiling number) as Hfc.
  rewrite inject_Z_plus in Hfl'. unfold Zminus in Hce'. rewrite inject_Z_plus in Hce'.
  change (inject_Z 1) with 1%Q in *. change (inject_Z (- (1))) with (-1)%Q in *.
  apply inject_Z_le in Hfc.
  set (fl := Qfloor number) in *. set (ce := Qceiling number) in *.
  assert (Hsel : forall c, c = fl \/ c = ce ->
     1 <= Z.max c 1 /\ (Qabs (inject_Z (Z.max c 1) - number) < 1)%Q /\
     (forall n : Z, (number <= inject_Z n)%Q -> 1 <= n -> Z.max c 1 <= n)).
  { intros c Hc. split; [lia|]. split.
    - apply Qabs_Qlt_condition.
      destruct (Z.max_spec c 1) as [[Hlt ->]|[Hge ->]].
      + change (inject_Z 1) with 1%Q.
        assert (c = fl) as ->.
        { destruct Hc as [->| ->]; [done|]. exfalso.
          assert (inject_Z ce <= 0)%Q by (apply (inject_Z_le ce 0); lia). lra. }
        assert (inject_Z fl <= 0)%Q by (apply (inject_Z_le fl 0); lia). lra.
      + destruct Hc as [->| ->]; lra.
    - intros n Hn H1. apply Z.max_lub; [|done].
      assert (ce <= n).
      { subst ce. rewrite <- (Qceiling_Z n). by apply Qceiling_resp_le. }
      destruct Hc as [->| ->]; lia. }
  destruct (Qle_bool _ _); apply Hsel; auto.
Qed.

(** The size [Image.thumbnail] settles on: inside the requested box, not
    above the image's own size, and each side within one pixel of the
    image scaled by the largest factor that makes it fit. *)
Lemma preserve_aspect_ratio_spec (im : Image) (x y : Z) :
  well_formed im -> 0 < x -> 0 < y ->
  match preserve_aspect_ratio im (x, y) with
  | None => width im <= x /\ height im <= y
  | Some (x', y') =>
      ~ (width im <= x /\ height im <= y) /\
      1 <= x' <= x /\ 1 <= y' <= y /\ x' <= width im /\ y' <= height im /\
      (Qabs (inject_Z x' - scale_factor (x, y) im * inject_Z (width im)) < 1)%Q /\
      (Qabs (inject_Z y' - scale_factor (x, y) im * inject_Z (height im)) < 1)%Q
  end.
Proof.
  intros [Hw Hh] Hx Hy. unfold preserve_aspect_ratio, scale_factor. simpl fst; simpl snd.
  destruct ((x >=? width im) && (y >=? height im)) eqn:Hfit.
  { apply andb_true_iff in Hfit as [?%Z.geb_le ?%Z.geb_le]. lia. }
  assert (Hnfit : ~ (width im <= x /\ height im <= y)).
  { intros [? ?]. apply andb_false_iff in Hfit as [Hf|Hf];
      rewrite Z.geb_leb in Hf; apply Z.leb_gt in Hf; lia. }
  pose proof (inject_Z_pos _ Hw) as HW. pose proof (inject_Z_pos _ Hh) as HH.
  pose proof (inject_Z_pos _ Hx) as HX. pose proof (inject_Z_pos _ Hy) as HY.
  set (W := inject_Z (width im)) in *. set (H := inject_Z (height im)) in *.
  set (X := inject_Z x) in *. set (Y := inject_Z y) in *.
  assert (E1 : (W / H * (H * Y) == W * Y)%Q) by (field; lra).
  assert (E2 : (X / Y * (H * Y) == X * H)%Q) by (field; lra).
  destruct (Qle_bool (W / H) (X / Y)) eqn:Hb.
  - (* the box is relatively wider than the image: the height decides *)
    apply Qle_bool_iff in Hb.
    assert (Hcross : (W * Y <= X * H)%Q).
    { apply (Qmult_le_r _ _ (H * Y)) in Hb; [|nra]. rewrite E1, E2 in Hb. exact Hb. }
    assert (Hmin : (Qmin (X / W) (Y / H) == Y / H)%Q).
    { apply Q.min_r. apply Qle_shift_div_l; [done|].
      assert (E : (Y / H * W == (W * Y) / H)%Q) by (field; lra). rewrite E.
      apply Qle_shift_div_r; [done|]. exact Hcross. }
    assert (Hnum : (0 < Y * (W / H))%Q).
    { apply Qmult_lt_0_compat; [done|]. apply Qlt_shift_div_l; [done|]. lra. }
    destruct (round_aspect_spec (Y * (W / H)) (fun n => Qabs (W / H - inject_Z n / Y)) Hnum)
      as (H1 & Habs & Hub).
    assert (Hyh : y <= height im).
    { destruct (Z.le_gt_cases y (height im)) as [|Hgt]; [done|]. exfalso.
      assert (Hlt : x < width im) by lia.
      apply inject_Z_lt in Hgt. apply inject_Z_lt in Hlt. fold W X H Y in Hgt, Hlt. nra. }
    split; [done|]. split; [split; [done|]|].
    { apply Hub; [|lia]. fold X.
      apply Qle_shift_div_r in Hcross; [|done].
      assert (E : (W * Y / H == Y * (W / H))%Q) by (field; lra). rewrite <- E. done. }
    split; [lia|]. split.
    { apply Hub; [|lia]. fold W. apply inject_Z_le in Hyh. fold Y H in Hyh.
      assert (E : (Y * (W / H) == W * Y / H)%Q) by (field; lra). rewrite E.
      apply Qle_shift_div_r; [done|]. nra. }
    split; [done|]. rewrite Hmin. split.
    + assert (E : (Y / H * W == Y * (W / H))%Q) by (field; lra). rewrite E. done.
    + assert (E : (Y / H * H == Y)%Q) by (field; lra). rewrite E.
      apply Qabs_Qlt_condition. fold Y. lra.
  - (* the image is relatively wider than the box: the width decides *)
    assert (Hb' : (X / Y < W / H)%Q).
    { apply Qnot_le_lt. intros Hle. apply Qle_bool_iff in Hle. congruence. }
    clear Hb.
    assert (Hcross : (X * H < W * Y)%Q).
    { apply (Qmult_lt_r _ _ (H * Y)) in Hb'; [|nra]. rewrite E1, E2 in Hb'. exact Hb'. }
    assert (Hmin : (Qmin (X / W) (Y / H) == X / W)%Q).
    { apply Q.min_l. apply Qle_shift_div_l; [done|].
      assert (E : (X / W * H == (X * H) / W)%Q) by (field; lra). rewrite E.
      apply Qle_shift_div_r; [done|]. lra. }
    assert (Enum : (X / (W / H) == X * H / W)%Q) by (field; lra).
    assert (Hnum : (0 < X / (W / H))%Q).
    { rewrite Enum. apply Qlt_shift_div_l; [done|]. nra. }
    destruct (round_aspect_spec (X / (W / H))
                (fun n => if decide (n = 0) then 0%Q else Qabs (W / H - X / inject_Z n)) Hnum)
      as (H1 & Habs & Hub).
    assert (Hxw : x <= width im).
    { destruct (Z.le_gt_cases x (width im)) as [|Hgt]; [done|]. exfalso.
      assert (Hlt : y < height im) by lia.
      apply inject_Z_lt in Hgt. apply inject_Z_lt in Hlt. fold W X H Y in Hgt, Hlt. nra. }
    split; [done|]. split; [lia|]. split; [split; [done|]|].
    { apply Hub; [|lia]. fold Y. rewrite Enum.
      apply Qle_shift_div_r; [done|]. lra. }
    split; [done|]. split.
    { apply Hub; [|lia]. fold H. apply inject_Z_le in Hxw. fold X W in Hxw.
      rewrite Enum. apply Qle_shift_div_r; [done|]. nra. }
    rewrite Hmin. split.
    + assert (E : (X / W * W == X)%Q) by (field; lra). rewrite E.
      apply Qabs_Qlt_condition. fold X. lra.
    + assert (E : (X / W * H == X / (W / H))%Q) by (field; lra). rewrite E. done.
Qed.

Section WithKernels.
Context `{K : Kernels}.

Lemma resize_size (im : Image) (size : Z * Z) (f : Resampling) :
  im_size (resize im size f) = size.
Proof.
  unfold resize. destruct (decide (im_size im = size)) as [E|E]; [done|].
  by destruct size.
Qed.

Lemma resize_mode (im : Image) (size : Z * Z) (f : Resampling) :
  mode (resize im size f) = mode im.
Proof. unfold resize. by destruct (decide _). Qed.

Lemma thumbnail_size (im : Image) (size : Z * Z) (f : Resampling) :
  im_size (thumbnail im size f) = default (im_size im) (preserve_aspect_ratio im size).
Proof.
  unfold thumbnail. destruct (preserve_aspect_ratio im size) as [final|]; [|done].
  simpl. destruct (decide (im_size im = final)); [done|]. apply resize_size.
Qed.

Lemma thumbnail_mode (im : Image) (size : Z * Z) (f : Resampling) :
  mode (thumbnail im size f) = mode im.
Proof.
  unfold thumbnail. destruct (preserve_aspect_ratio im size); [|done].
  destruct (decide _); [done|]. apply resize_mode.
Qed.

(** [exif_transpose] keeps the two dimensions, possibly exchanged, and
    leaves an image that asks for no further transposition. *)
Lemma exif_transpose_size (im : Image) :
  im_size (exif_transpose im) = (width im, height im) \/
  im_size (exif_transpose im) = (height im, width im).
Proof.
  unfold exif_transpose.
  destruct (orientation_method _) as [[]|]; simpl; auto.
Qed.

Lemma exif_transpose_mode (im : Image) : mode (exif_transpose im) = mode im.
Proof. unfold exif_transpose. by destruct (orientation_method _) as [[]|]. Qed.

Lemma exif_transpose_well_formed (im : Image) :
  well_formed im -> well_formed (exif_transpose im).
Proof.
  unfold well_formed. intros [? ?].
  destruct (exif_transpose_size im) as [E|E]; injection E as -> ->; lia.
Qed.

Lemma exif_transpose_normal (im : Image) :
  orientation_method (default 1 (exif_orientation (exif_transpose im))) = None.
Proof.
  unfold exif_transpose.
  destruct (orientation_method (default 1 (exif_orientation im))) eqn:E; [done|].
  exact E.
Qed.

End WithKernels.
End Geometry.

(** ** The two transforms *)

Module Transforms.
Import Pillow Script Spec Geometry.
Local Open Scope Z_scope.


Lemma scale_factor_ge_1 (im : Image) (x y : Z) :
  well_formed im -> width im <= x -> height im <= y -> (1 <= scale_factor (x, y) im)%Q.
Proof.
  intros [Hw Hh] Hx Hy. unfold scale_factor. simpl.
  apply inject_Z_pos in Hw as HW. apply inject_Z_pos in Hh as HH.
  apply inject_Z_le in Hx. apply inject_Z_le in Hy.
  apply Q.min_glb; (apply Qle_shift_div_l; [done|lra]).
Qed.

Lemma scale_factor_le_1 (im : Image) (x y : Z) :
  well_formed im -> ~ (width im <= x /\ height im <= y) -> (scale_factor (x, y) im <= 1)%Q.
Proof.
  intros [Hw Hh] Hn. unfold scale_factor. simpl.
  apply inject_Z_pos in Hw as HW. apply inject_Z_pos in Hh as HH.
  destruct (Z.le_gt_cases (width im) x) as [Hx|Hx].
  - assert (Hy : y < height im) by lia. apply inject_Z_lt in Hy.
    eapply Qle_trans; [apply Q.le_min_r|]. apply Qle_shift_div_r; [done|lra].
  - apply inject_Z_lt in Hx.
    eapply Qle_trans; [apply Q.le_min_l|]. apply Qle_shift_div_r; [done|lra].
Qed.

Section WithKernels.
Context `{K : Kernels}.

Lemma fit_source_size (img : Image) :
  im_size (fit_source img) = im_size (exif_transpose img).
Proof. unfold fit_source. by destruct (decide _). Qed.

Lemma fit_source_mode (img : Image) :
  mode (fit_source img) = Mode_RGBA \/ mode (fit_source img) = Mode_LA.
Proof. unfold fit_source. destruct (decide _); [done|by left]. Qed.

Lemma fit_thumb_unfold (img : Image) (size : Z) :
  fit_thumb img size = thumbnail (fit_source img) (size, size) LANCZOS.
Proof. reflexivity. Qed.

Lemma make_square_fit_unfold (img : Image) (size : Z) :
  make_square_fit img size =
  paste (new Mode_RGBA (size, size) (0, 0, 0, 0)) (fit_thumb img size)
        ((size - width (fit_thumb img size)) `div` 2,
         (size - height (fit_thumb img size)) `div` 2)
        (fit_thumb img size).
Proof. reflexivity. Qed.

(** Size of the pasted content, for any positive target size. *)
Lemma fit_thumb_geometry (img : Image) (size : Z) :
  well_formed img -> 0 < size ->
  let src := exif_transpose img in
  let content := fit_thumb img size in
  (1 <= width content <= size /\ 1 <= height content <= size) /\
  (width content <= width src /\ height content <= height src) /\
  (Qabs (inject_Z (width content) - fit_scale src size * inject_Z (width src)) < 1)%Q /\
  (Qabs (inject_Z (height content) - fit_scale src size * inject_Z (height src)) < 1)%Q.
Proof.
  intros Hwf Hs src content.
  assert (Hsrc : well_formed src) by by apply exif_transpose_well_formed.
  pose proof (fit_source_size img) as Hfs. fold src in Hfs.
  injection Hfs as Hfw Hfh.
  assert (Hwf' : well_formed (fit_source img)).
  { unfold well_formed. rewrite Hfw, Hfh. exact Hsrc. }
  pose proof (thumbnail_size (fit_source img) (size, size) LANCZOS) as Hts.
  rewrite <- fit_thumb_unfold in Hts. fold content in Hts.
  pose proof (preserve_aspect_ratio_spec (fit_source img) size size Hwf' Hs Hs) as Hp.
  assert (Hsf : scale_factor (size, size) (fit_source img) = scale_factor (size, size) src).
  { unfold scale_factor. by rewrite Hfw, Hfh. }
  unfold fit_scale. destruct Hsrc as [Hw Hh].
  destruct (preserve_aspect_ratio (fit_source img) (size, size)) as [[x' y']|].
  - injection Hts as Hcw Hch. rewrite Hcw, Hch.
    destruct Hp as (Hn & Hx & Hy & Hxw & Hyh & Hqx & Hqy).
    rewrite Hfw, Hfh, Hsf in *.
    assert (Hmin : (Qmin 1 (scale_factor (size, size) src) == scale_factor (size, size) src)%Q).
    { apply Q.min_r. apply scale_factor_le_1; [done|]. exact Hn. }
    rewrite Hmin. done.
  - injection Hts as Hcw Hch. rewrite Hcw, Hch, Hfw, Hfh in *.
    destruct Hp as [Hpw Hph].
    assert (Hmin : (Qmin 1 (scale_factor (size, size) src) == 1)%Q).
    { apply Q.min_l. apply scale_factor_ge_1; done. }
    rewrite Hmin. repeat split; try lia; apply Qabs_Qlt_condition; lra.
Qed.


(** C8.  Fit mode never enlarges: when the normalised source is at most
    size in both directions, the pasted content is that source, pixel for
    pixel and with its own dimensions, centred, and a source narrower (or
    lower) than the canvas leaves transparent canvas beside it. *)
Theorem make_square_fit_no_upscale (img : Image) (size : Z) :
  let src := exif_transpose img in
  width src <= size -> height src <= size ->
  let content := fit_thumb img size in
  let x := (size - width src) `div` 2 in
  let y := (size - height src) `div` 2 in
  content = fit_source img /\
  im_size content = im_size src /\
  (mode src = Mode_RGBA \/ mode src = Mode_LA -> content = src) /\
  make_square_fit img size =
    paste (new Mode_RGBA (size, size) (0, 0, 0, 0)) content (x, y) content /\
  (0 <= x /\ x + width src <= size /\ 0 <= y /\ y + height src <= size) /\
  (0 <= (size - width src) - 2 * x <= 1 /\ 0 <= (size - height src) - 2 * y <= 1) /\
  (width src < size -> x + width src < size) /\
  (height src < size -> y + height src < size).
Proof.
  intros src Hw Hh content x y.
  pose proof (fit_source_size img) as Hfs. fold src in Hfs. injection Hfs as Hfw Hfh.
  assert (Hc : content = fit_source img).
  { subst content. rewrite fit_thumb_unfold. unfold thumbnail, preserve_aspect_ratio.
    rewrite Hfw, Hfh.
    assert (Hfit : (size >=? width src) && (size >=? height src) = true).
    { apply andb_true_iff; split; apply Z.geb_le; lia. }
    by rewrite Hfit. }
  assert (Hsz : im_size content = im_size src).
  { rewrite Hc. apply fit_source_size. }
  injection Hsz as Hcw Hch.
  pose proof (Z.div_mod (size - width src) 2 ltac:(lia)).
  pose proof (Z.mod_pos_bound (size - width src) 2 ltac:(lia)).
  pose proof (Z.div_mod (size - height src) 2 ltac:(lia)).
  pose proof (Z.mod_pos_bound (size - height src) 2 ltac:(lia)).
  assert (0 <= x) by (apply Z.div_pos; lia).
  assert (0 <= y) by (apply Z.div_pos; lia).
  split; [done|]. split; [unfold im_size; congruence|]. split.
  { intros Hm. rewrite Hc. unfold fit_source. fold src. by rewrite decide_True. }
  split.
  { rewrite make_square_fit_unfold. fold content. subst x y. by rewrite Hcw, Hch. }
  subst x y. repeat split; lia.
Qed.


End WithKernels.
End Transforms.

(** ** The file-level driver and the batch *)

Module Batch.
Import Pillow Py Sys Script Spec.
Local Open Scope script_scope.

(** *** The monad *)

Lemma bind_ret_l {A B} (a : A) (f : A -> M B) (w : World) : bind (ret a) f w = f a w.
Proof. reflexivity. Qed.

Lemma bind_inr {A B} (m : M A) (f : A -> M B) (w w' : World) (a : A) :
  m w = (inr a, w') -> bind m f w = f a w'.
Proof. unfold bind. by intros ->. Qed.

Lemma bind_inl {A B} (m : M A) (f : A -> M B) (w w' : World) (e : exn) :
  m w = (inl e, w') -> bind m f w = (inl e, w').
Proof. unfold bind. by intros ->. Qed.

Lemma for_each_cons {A} (x : A) (l : list A) (body : A -> M unit) (w : World) :
  for_each (x :: l) body w = bind (body x) (fun _ => for_each l body) w.
Proof. reflexivity. Qed.

Lemma for_each_app {A} (l1 l2 : list A) (body : A -> M unit) (w : World) :
  for_each (l1 ++ l2) body w = bind (for_each l1 body) (fun _ => for_each l2 body) w.
Proof.
  revert w. induction l1 as [|x l1 IH]; intros w; simpl.
  - reflexivity.
  - unfold bind in *. destruct (body x w) as [[e|[]] w1]; [done|]. apply IH.
Qed.

Lemma stdout_app (t1 t2 : list event) : stdout (t1 ++ t2) = stdout t1 ++ stdout t2.
Proof. unfold stdout. apply omap_app. Qed.

Lemma writes_app (t1 t2 : list event) : writes (t1 ++ t2) = writes t1 ++ writes t2.
Proof. unfold writes. apply omap_app. Qed.

Section WithCodecs.
Context `{K : Kernels} `{C : Codecs}.

(** *** Opening and saving *)

(** [Image.open] leaves the world alone, raises nothing but [Exception]
    and hands out well-formed images only. *)
Lemma Image_open_cases (p : Path) (w : World) :
  (exists e, Image_open p w = (inl (Exception e), w)) \/
  (exists img, Image_open p w = (inr img, w) /\ well_formed img).
Proof.
  unfold Image_open, bind, read_file.
  destruct (files w !! parent p) as [[data|listing]|]; [left; eauto| |left; eauto].
  destruct (listing !! name p) as [[data|]|]; [|left; eauto..].
  destruct (decode data) as [msg|img]; [left; eauto|].
  destruct (well_formedb img) eqn:Hwf; [|left; eauto].
  right. exists img. split; [done|].
  unfold well_formedb in Hwf. apply andb_true_iff in Hwf as [?%Z.ltb_lt ?%Z.ltb_lt].
  by split.
Qed.

(** A save either writes the file and records the write, or raises and
    changes nothing. *)
Lemma Image_save_cases (img : Image) (p : Path) (w : World) :
  (exists e, Image_save img p w = (inl (Exception e), w)) \/
  (exists w', Image_save img p w = (inr tt, w') /\
              trace w' = trace w ++ [Write p (encode_png img)]).
Proof.
  unfold Image_save, write_file.
  destruct (files w !! parent p) as [[data|listing]|]; [left; eauto| |left; eauto].
  destruct (listing !! name p) as [[data|]|]; [right; eauto|left; eauto|right; eauto].
Qed.

(** *** One file *)

Lemma process_image_unfold (p : Path) (out_dir mode : string) :
  process_image p out_dir mode =
  try_except
    (img <- Image_open p ;;;
     for_each SIZES (save_output img p out_dir mode) ;;;
     print (ok_line p))
    (fun e => print (error_line p e)).
Proof. reflexivity. Qed.

(** The loop over the sizes: it saves a prefix of them, all of them
    exactly when it returns. *)
Lemma save_loop_cases (img : Image) (p : Path) (out_dir mode : string)
    (ss : list Z) (w : World) :
  exists (k : nat) (w' : World),
    trace w' = trace w ++
      ((fun s => Write (out_path p out_dir s) (encode_png (transform mode img s)))
       <$> take k ss) /\
    ((for_each ss (save_output img p out_dir mode) w = (inr tt, w') /\ k = length ss) \/
     (exists e, for_each ss (save_output img p out_dir mode) w = (inl (Exception e), w') /\
                (k < length ss)%nat)).
Proof.
  revert w. induction ss as [|s ss IH]; intros w.
  - exists 0%nat, w. split; [by rewrite app_nil_r|]. by left.
  - rewrite for_each_cons. unfold bind.
    pose proof (Image_save_cases (transform mode img s) (out_path p out_dir s) w) as Hs.
    change (Image_save _ _ w) with (save_output img p out_dir mode s w) in Hs.
    destruct Hs as [[e He]|(w1 & Hw1 & Ht1)].
    + exists 0%nat, w. split; [by rewrite app_nil_r|]. right. exists e.
      rewrite He. split; [done|simpl; lia].
    + rewrite Hw1. destruct (IH w1) as (k & w' & Ht & Hk).
      exists (S k), w'. split.
      { rewrite Ht, Ht1, <- app_assoc. reflexivity. }
      destruct Hk as [[Hr ->]|(e & Hr & Hlt)]; [by left|].
      right. exists e. split; [done|simpl; lia].
Qed.

(** [process_image] always returns: what it adds to the trace is a report
    on the file. *)
Lemma process_image_report (p : Path) (out_dir mode : string) (w : World) :
  exists (w' : World) (ev : list event),
    process_image p out_dir mode w = (inr tt, w') /\
    trace w' = trace w ++ ev /\
    file_report out_dir mode p ev.
Proof.
  rewrite process_image_unfold. unfold try_except, bind at 1.
  destruct (Image_open_cases p w) as [[e He]|(img & Himg & Hwf)].
  - rewrite He. unfold print. eexists _, _. split; [reflexivity|]. split; [reflexivity|].
    constructor.
  - rewrite Himg. unfold bind at 1.
    destruct (save_loop_cases img p out_dir mode SIZES w) as (k & w1 & Ht & Hk).
    destruct Hk as [[Hr ->]|(e & Hr & Hlt)]; rewrite Hr.
    + unfold print. eexists _, _. split; [reflexivity|]. cbn [trace].
      split; [by rewrite Ht, <- app_assoc|].
      by apply report_ok.
    + unfold print. eexists _, _. split; [reflexivity|]. cbn [trace].
      split; [by rewrite Ht, <- app_assoc|].
      by apply report_save_error.
Qed.

(** A file that cannot be opened or decoded leaves one error line and
    nothing else. *)
Lemma process_image_open_error (p : Path) (out_dir mode : string) (w : World) (e : string) :
  Image_open p w = (inl (Exception e), w) ->
  process_image p out_dir mode w =
    (inr tt, mkWorld (files w) (trace w ++ [Print (error_line p e)])).
Proof.
  intros He. rewrite process_image_unfold. unfold try_except, bind at 1.
  by rewrite He.
Qed.

(** *** The batch *)

Lemma process_all_report (images : list Path) (out_dir mode : string) (w : World) :
  exists (w' : World) (evs : list (list event)),
    process_all images out_dir mode w = (inr tt, w') /\
    trace w' = trace w ++ concat evs /\
    Forall2 (file_report out_dir mode) images evs.
Proof.
  revert w. induction images as [|p images IH]; intros w.
  - exists w, []. split; [done|]. split; [by rewrite app_nil_r|]. constructor.
  - destruct (process_image_report p out_dir mode w) as (w1 & ev & Hr & Ht & Hrep).
    destruct (IH w1) as (w' & evs & Hr' & Ht' & Hreps).
    exists w', (ev :: evs). split.
    { unfold process_all. rewrite for_each_cons. unfold bind. rewrite Hr. exact Hr'. }
    split; [|by constructor].
    rewrite Ht', Ht, <- app_assoc. reflexivity.
Qed.

End WithCodecs.
End Batch.

(** ** The batch driver *)

Module Driver.
Import Pillow Py Sys Script Spec Batch.
Local Open Scope script_scope.

(** *** Strings *)

Lemma startswith_spec (s prefix : string) :
  startswith s prefix = true <-> exists r, s = prefix +:+ r.
Proof.
  revert s. induction prefix as [|a prefix IH]; intros s; simpl.
  - split; [intros _; by exists s|]. intros _. by destruct s.
  - destruct s as [|b s]; simpl.
    + split; [done|]. by intros [r ?].
    + destruct (decide (a = b)) as [->|Hne].
      * rewrite IH. split; intros [r Hr]; exists r.
        -- rewrite Hr. reflexivity.
        -- by injection Hr.
      * split; [done|]. intros [r Hr]. injection Hr as ? ?. congruence.
Qed.

Lemma split1_mode (r : string) : split1 ("--mode=" +:+ r) "=" = ["--mode"; r].
Proof. reflexivity. Qed.

Lemma lower_char_idemp (c : ascii) : lower_char (lower_char c) = lower_char c.
Proof.
  unfold lower_char.
  destruct ((65 <=? nat_of_ascii c)%nat && (nat_of_ascii c <=? 90)%nat) eqn:E.
  - apply andb_true_iff in E as [H1%Nat.leb_le H2%Nat.leb_le].
    rewrite nat_ascii_embedding by lia.
    assert (Hhi : (nat_of_ascii c + 32 <=? 90)%nat = false) by (apply Nat.leb_gt; lia).
    by rewrite Hhi, andb_false_r.
  - by rewrite E.
Qed.

Lemma lower_idemp (s : string) : lower (lower s) = lower s.
Proof. induction s as [|c s IH]; simpl; [done|]. by rewrite lower_char_idemp, IH. Qed.

Section WithCodecs.
Context `{K : Kernels} `{C : Codecs}.

(** *** The stages of [main] *)

Lemma main_usage (argv : list string) (w : World) :
  (length argv < 3)%nat ->
  main argv w = (inl (SystemExit 1), mkWorld (files w) (trace w ++ [Print __doc__])).
Proof.
  intros Hlen. unfold main.
  apply Nat.ltb_lt in Hlen. rewrite Hlen. reflexivity.
Qed.

Lemma main_unfold (prog i o : string) (rest : list string) :
  main (prog :: i :: o :: rest) =
  bind (parse_mode (head rest)) (check_and_batch (resolve i) (resolve o)).
Proof. destruct rest; reflexivity. Qed.

Lemma parse_mode_accepted (arg : string) (mode : string) (w : World) :
  accepted_mode arg = Some mode -> parse_mode (Some arg) w = (inr mode, w).
Proof.
  unfold accepted_mode, parse_mode. intros Hacc.
  destruct (bool_decide (lower arg ∈ ["fit"; "--mode=fit"])).
  { by injection Hacc as <-. }
  destruct (bool_decide (lower arg ∈ ["cover"; "--mode=cover"])); [|done].
  by injection Hacc as <-.
Qed.

Lemma parse_mode_rejected (arg : string) (w : World) :
  accepted_mode arg = None ->
  parse_mode (Some arg) w =
    (inl (SystemExit 2),
     mkWorld (files w) (trace w ++ [Print "Ungültiger --mode. Erlaubt: fit | cover"])).
Proof.
  unfold accepted_mode, parse_mode. intros Hacc.
  destruct (bool_decide (lower arg ∈ ["fit"; "--mode=fit"])) eqn:Hfit; [done|].
  destruct (bool_decide (lower arg ∈ ["cover"; "--mode=cover"])) eqn:Hcover; [done|].
  apply bool_decide_eq_false in Hfit, Hcover.
  rewrite !elem_of_cons, elem_of_nil in Hfit, Hcover.
  destruct (startswith (lower arg) "--mode=") eqn:Hpre.
  - apply startswith_spec in Hpre as [r Hr]. rewrite Hr, split1_mode.
    assert (Hbad : bool_decide (r ∈ ["fit"; "cover"]) = false).
    { apply bool_decide_eq_false. rewrite !elem_of_cons, elem_of_nil.
      intros [->|[->|[]]]; [apply Hfit|apply Hcover]; rewrite Hr; auto. }
    unfold bind, getitem. simpl. unfold ret. by rewrite Hbad.
  - assert (Hbad : bool_decide (lower arg ∈ ["fit"; "cover"]) = false).
    { apply bool_decide_eq_false. rewrite !elem_of_cons, elem_of_nil. tauto. }
    unfold bind, ret. by rewrite Hbad.
Qed.

Lemma accepted_mode_valid (arg mode : string) :
  accepted_mode arg = Some mode -> mode = "fit" \/ mode = "cover".
Proof.
  unfold accepted_mode.
  repeat destruct (bool_decide _); intros; simplify_eq; auto.
Qed.

Lemma check_missing_dir (in_dir out_dir mode : string) (w : World) :
  (forall listing, files w !! in_dir <> Some (Dir listing)) ->
  check_and_batch in_dir out_dir mode w =
    (inl (SystemExit 1),
     mkWorld (files w) (trace w ++ [Print ("Eingabeordner nicht gefunden: " +:+ in_dir)])).
Proof.
  intros Hno. unfold check_and_batch, bind, is_dir.
  destruct (files w !! in_dir) as [[data|listing]|]; [done| |done].
  by destruct (Hno listing).
Qed.

Lemma check_mkdir_fails (in_dir out_dir mode : string) (w : World)
    (listing : gmap string entry) (data : bytes) :
  files w !! in_dir = Some (Dir listing) ->
  files w !! out_dir = Some (File data) ->
  check_and_batch in_dir out_dir mode w =
    (inl (Exception ("[Errno 17] File exists: '" +:+ out_dir +:+ "'")), w).
Proof.
  intros Hin Hout. unfold check_and_batch, bind, is_dir, mkdir.
  rewrite Hin. cbn [negb when ret]. by rewrite Hout.
Qed.

Lemma with_dir_listing (in_dir out_dir : string) (w : World) (listing : gmap string entry) :
  files w !! in_dir = Some (Dir listing) ->
  files (with_dir out_dir w) !! in_dir = Some (Dir listing).
Proof.
  intros Hin. unfold with_dir.
  destruct (files w !! out_dir) eqn:Hout; [done|].
  cbn [files]. rewrite lookup_insert_ne; [done|]. congruence.
Qed.

Lemma with_dir_trace (out_dir : string) (w : World) : trace (with_dir out_dir w) = trace w.
Proof. unfold with_dir. by destruct (files w !! out_dir). Qed.

Lemma with_dir_is_dir (out_dir : string) (w : World) :
  (forall data, files w !! out_dir <> Some (File data)) ->
  exists listing, files (with_dir out_dir w) !! out_dir = Some (Dir listing).
Proof.
  intros Hno. unfold with_dir.
  destruct (files w !! out_dir) as [[data|listing]|] eqn:Hout.
  - by destruct (Hno data).
  - eauto.
  - exists ∅. cbn [files]. by rewrite lookup_insert_eq.
Qed.

Lemma check_batch (in_dir out_dir mode : string) (w : World) (listing : gmap string entry) :
  files w !! in_dir = Some (Dir listing) ->
  (forall data, files w !! out_dir <> Some (File data)) ->
  check_and_batch in_dir out_dir mode w =
    batch (select_images in_dir listing) in_dir out_dir mode (with_dir out_dir w).
Proof.
  intros Hin Hout.
  pose proof (with_dir_listing in_dir out_dir w listing Hin) as Hin'.
  unfold check_and_batch, bind at 1, is_dir. rewrite Hin. cbn [negb when].
  rewrite bind_ret_l. unfold bind at 1.
  assert (Hmk : mkdir out_dir w = (inr tt, with_dir out_dir w)).
  { unfold mkdir, with_dir. destruct (files w !! out_dir) as [[data|l]|]; [|done..].
    by destruct (Hout data). }
  rewrite Hmk. unfold bind at 1, iterdir. rewrite Hin'. reflexivity.
Qed.

(** An invocation that passes the checks runs the batch on the selected
    files, in the world with the output directory in place. *)
Lemma main_batch_run (argv : list string) (w : World)
    (in_dir out_dir mode : string) (listing : gmap string entry) :
  batch_run argv w in_dir out_dir mode listing ->
  main argv w = batch (select_images in_dir listing) in_dir out_dir mode (with_dir out_dir w).
Proof.
  intros [Hi Ho Hm Hl Hmk].
  destruct argv as [|prog [|i [|o rest]]]; try done.
  simpl in Hi, Ho. injection Hi as <-. injection Ho as <-.
  rewrite main_unfold. unfold mode_of_args in Hm.
  destruct rest as [|arg rest]; simpl in Hm |- *.
  - injection Hm as <-. rewrite bind_ret_l. by apply check_batch.
  - erewrite bind_inr; [|by apply parse_mode_accepted]. by apply check_batch.
Qed.

(** *** The batch *)

Lemma batch_empty (in_dir out_dir mode : string) (w : World) :
  batch [] in_dir out_dir mode w =
    (inl (SystemExit 0),
     mkWorld (files w)
       (trace w ++ [Print "Keine unterstützten Bilddateien im Eingabeordner gefunden."])).
Proof. reflexivity. Qed.

Lemma batch_nonempty (images : list Path) (in_dir out_dir mode : string) (w : World) :
  images <> [] ->
  batch images in_dir out_dir mode w =
    process_all images out_dir mode
      (mkWorld (files w)
         (trace w ++ [Print (header_line (length images) in_dir out_dir mode)])).
Proof.
  intros Hne. unfold batch. rewrite bool_decide_eq_false_2 by done. reflexivity.
Qed.

End WithCodecs.
End Driver.

(** ** File selection and the shape of a batch trace *)

Module Selection.
Import Pillow Py Sys Script Spec Batch Driver.

Global Instance Path_le_total : Total Path_le.
Proof. intros p q. unfold Path_le. apply (total String.le). Qed.

Global Instance Path_le_trans : Transitive Path_le.
Proof. intros p q r. unfold Path_le. apply transitivity. Qed.

Section WithCodecs.
Context `{K : Kernels} `{C : Codecs}.

(** The matched files are exactly the regular files of the listing whose
    lowered suffix is on the allow-list. *)
Lemma select_images_elem (in_dir : string) (listing : gmap string entry) (p : Path) :
  p ∈ select_images in_dir listing <->
  parent p = in_dir /\
  (exists data, listing !! name p = Some (RegularFile data)) /\
  lower (suffix p) ∈ SUPPORTED_SUFFIXES.
Proof.
  unfold select_images. rewrite merge_sort_Permutation, list_elem_of_fmap. split.
  - intros ([q b] & -> & Hq). apply list_elem_of_filter in Hq as [[-> Hsuf] Hq].
    apply list_elem_of_fmap in Hq as ([n e] & Heq & Hne).
    apply elem_of_map_to_list in Hne. injection Heq as -> Hb. simpl.
    split; [done|]. split; [|done].
    destruct e as [data|]; [eauto|done].
  - intros (Hpar & [data Hdata] & Hsuf). exists (p, true). split; [done|].
    apply list_elem_of_filter. split; [done|].
    apply list_elem_of_fmap. exists (name p, RegularFile data). split.
    + destruct p as [d n]. simpl in *. by subst.
    + by apply elem_of_map_to_list.
Qed.

Lemma select_images_NoDup (in_dir : string) (listing : gmap string entry) :
  NoDup (select_images in_dir listing).
Proof.
  unfold select_images. rewrite merge_sort_Permutation.
  eapply sublist_NoDup; [|apply fmap_sublist, sublist_filter].
  assert (Hfun : forall l : list (string * entry),
            ((fun '(n, e) => (mkPath in_dir n,
                match e with RegularFile _ => true | Directory => false end)) <$> l).*1
            = mkPath in_dir <$> l.*1).
  { intros l. induction l as [|[n e] l IH]; [done|]. cbn. by rewrite <- IH. }
  rewrite Hfun. apply NoDup_fmap_2; [|apply NoDup_fst_map_to_list].
  intros n1 n2 Heq. by injection Heq.
Qed.

Lemma select_images_sorted (in_dir : string) (listing : gmap string entry) :
  StronglySorted Path_le (select_images in_dir listing).
Proof. unfold select_images. apply StronglySorted_merge_sort; apply _. Qed.

(** *** Reading a report *)

Lemma stdout_file_writes (img : Image) (p : Path) (out_dir mode : string) (k : nat) :
  stdout (file_writes img p out_dir mode k) = [].
Proof.
  unfold file_writes. induction (take k SIZES) as [|s l IH]; [done|]. exact IH.
Qed.

Lemma writes_file_writes (img : Image) (p : Path) (out_dir mode : string) (k : nat) :
  (writes (file_writes img p out_dir mode k)).*1 = take k (outputs p out_dir).
Proof.
  unfold file_writes, outputs. rewrite <- fmap_take.
  induction (take k SIZES) as [|s l IH]; [done|].
  cbn. f_equal. exact IH.
Qed.

(** Every report holds one line, the status line of its file. *)
Lemma file_report_stdout (out_dir mode : string) (p : Path) (ev : list event) :
  file_report out_dir mode p ev ->
  exists line, stdout ev = [line] /\ status_line p line.
Proof.
  intros [e|img k e Hwf Hk|img Hwf].
  - exists (error_line p e). split; [done|]. right. eauto.
  - exists (error_line p e). rewrite stdout_app, stdout_file_writes.
    split; [done|]. right. eauto.
  - exists (ok_line p). rewrite stdout_app, stdout_file_writes.
    split; [done|]. by left.
Qed.

(** The writes of a report go to a prefix of the outputs of its file: to
    all six exactly when the line is the OK line. *)
Lemma file_report_writes (out_dir mode : string) (p : Path) (ev : list event) :
  file_report out_dir mode p ev ->
  exists k : nat,
    (k <= length SIZES)%nat /\
    (writes ev).*1 = take k (outputs p out_dir) /\
    (k = length SIZES <-> stdout ev = [ok_line p]).
Proof.
  intros [e|img k e Hwf Hk|img Hwf].
  - exists 0%nat. split; [simpl; lia|]. split; [done|]. split; [done|].
    intros Heq. by injection Heq.
  - exists k. split; [lia|]. rewrite writes_app, stdout_app, stdout_file_writes, app_nil_r.
    split; [apply writes_file_writes|]. split; [lia|].
    intros Heq. by injection Heq.
  - exists (length SIZES). split; [done|].
    rewrite writes_app, stdout_app, stdout_file_writes, app_nil_r.
    split; [apply writes_file_writes|]. done.
Qed.

Lemma reports_stdout (out_dir mode : string) (images : list Path) (evs : list (list event)) :
  Forall2 (file_report out_dir mode) images evs ->
  exists lines, stdout (concat evs) = lines /\ Forall2 status_line images lines.
Proof.
  induction 1 as [|p ev images evs Hrep _ (lines & Hlines & Hall)].
  - exists []. split; [done|constructor].
  - destruct (file_report_stdout _ _ _ _ Hrep) as (line & Hline & Hst).
    exists (line :: lines). split; [|by constructor].
    simpl. by rewrite stdout_app, Hline, Hlines.
Qed.

Lemma reports_writes (out_dir mode : string) (images : list Path) (evs : list (list event)) :
  Forall2 (file_report out_dir mode) images evs ->
  forall q data, (q, data) ∈ writes (concat evs) ->
  exists p s, p ∈ images /\ s ∈ SIZES /\ q = out_path p out_dir s.
Proof.
  induction 1 as [|p ev images evs Hrep _ IH]; intros q data Hq.
  - simpl in Hq. by apply elem_of_nil in Hq.
  - simpl in Hq. rewrite writes_app in Hq. apply elem_of_app in Hq as [Hq|Hq].
    + destruct (file_report_writes _ _ _ _ Hrep) as (k & _ & Hw & _).
      assert (Hin : q ∈ (writes ev).*1).
      { apply list_elem_of_fmap. by exists (q, data). }
      rewrite Hw in Hin. apply elem_of_take in Hin as (i & Hi & _).
      unfold outputs in Hi. apply list_lookup_fmap_Some in Hi as (s & -> & Hs).
      exists p, s. split; [by left|]. split; [|done].
      by eapply list_elem_of_lookup_2.
    + destruct (IH q data Hq) as (p' & s & Hp' & Hs & ->).
      exists p', s. split; [by right|done].
Qed.

Lemma new_events_app (w w' : World) (ev : list event) :
  trace w' = trace w ++ ev -> new_events w w' = ev.
Proof. intros Ht. unfold new_events. rewrite Ht. apply drop_app_length. Qed.

End WithCodecs.
End Selection.

(** ** Properties of the command line, the selection and the error boundary *)

Module Properties.
Import Pillow Py Sys Script Spec Batch Driver Selection.
Local Open Scope script_scope.

Section WithCodecs.
Context `{K : Kernels} `{C : Codecs}.

Lemma run_unfold (argv : list string) (w : World) :
  run argv w = (exit_status (main argv w).1, (main argv w).2).
Proof. unfold run. by destruct (main argv w). Qed.

(** The trace of an invocation that reaches the batch with files to
    process: the header, then one report per matched file; [main] returns. *)
Lemma batch_run_trace (argv : list string) (w : World)
    (in_dir out_dir mode : string) (listing : gmap string entry) :
  batch_run argv w in_dir out_dir mode listing ->
  let images := select_images in_dir listing in
  images <> [] ->
  exists (w' : World) (evs : list (list event)),
    main argv w = (inr tt, w') /\
    trace w' = trace w ++
      Print (header_line (length images) in_dir out_dir mode) :: concat evs /\
    Forall2 (file_report out_dir mode) images evs.
Proof.
  intros Hrun images Hne.
  rewrite (main_batch_run _ _ _ _ _ _ Hrun). fold images.
  rewrite batch_nonempty by done.
  destruct (process_all_report images out_dir mode
              (mkWorld (files (with_dir out_dir w))
                 (trace (with_dir out_dir w) ++
                  [Print (header_line (length images) in_dir out_dir mode)])))
    as (w' & evs & Hr & Ht & Hreps).
  exists w', evs. split; [done|]. split; [|done].
  rewrite Ht. cbn [trace]. by rewrite with_dir_trace, <- app_assoc.
Qed.

Lemma batch_run_empty (argv : list string) (w : World)
    (in_dir out_dir mode : string) (listing : gmap string entry) :
  batch_run argv w in_dir out_dir mode listing ->
  select_images in_dir listing = [] ->
  main argv w =
    (inl (SystemExit 0),
     mkWorld (files (with_dir out_dir w))
       (trace w ++ [Print "Keine unterstützten Bilddateien im Eingabeordner gefunden."])).
Proof.
  intros Hrun Hempty. rewrite (main_batch_run _ _ _ _ _ _ Hrun), Hempty, batch_empty.
  by rewrite with_dir_trace.
Qed.




(** C10.  The third argument is lowered before it is matched: a run with
    it and a run with its lowered form are the same run.  The values
    accepted are those that lower to "fit" or "--mode=fit", which run as
    "fit" does (the mode of a run without a third argument), and those
    that lower to "cover" or "--mode=cover", which run as "cover" does;
    every other value ends the run with status 2. *)
Theorem mode_is_case_insensitive (prog i o arg : string) (rest : list string) (w : World) :
  run (prog :: i :: o :: arg :: rest) w = run (prog :: i :: o :: lower arg :: rest) w /\
  (lower arg ∈ ["fit"; "--mode=fit"] ->
   run (prog :: i :: o :: arg :: rest) w = run [prog; i; o; "fit"] w) /\
  (lower arg ∈ ["cover"; "--mode=cover"] ->
   run (prog :: i :: o :: arg :: rest) w = run [prog; i; o; "cover"] w) /\
  run [prog; i; o; "fit"] w = run [prog; i; o] w /\
  (lower arg ∉ ["fit"; "--mode=fit"; "cover"; "--mode=cover"] ->
   run (prog :: i :: o :: arg :: rest) w =
     (2%Z, mkWorld (files w)
             (trace w ++ [Print "Ungültiger --mode. Erlaubt: fit | cover"]))).
Proof.
  rewrite !run_unfold, !main_unfold. cbn [head].
  assert (Hlow : parse_mode (Some (lower arg)) = parse_mode (Some arg)).
  { unfold parse_mode. by rewrite lower_idemp. }
  split; [by rewrite Hlow|]. split; [|split; [|split]].
  - intros Hfit.
    assert (Hacc : accepted_mode arg = Some "fit").
    { unfold accepted_mode. by rewrite bool_decide_eq_true_2. }
    erewrite bind_inr; [|by apply parse_mode_accepted].
    erewrite (bind_inr (parse_mode (Some "fit"))); [done|reflexivity].
  - intros Hcover.
    assert (Hacc : accepted_mode arg = Some "cover").
    { unfold accepted_mode.
      destruct (bool_decide (lower arg ∈ ["fit"; "--mode=fit"])) eqn:Hfit.
      - apply bool_decide_eq_true in Hfit.
        rewrite !elem_of_cons, elem_of_nil in Hfit, Hcover.
        destruct Hfit as [Hf|[Hf|[]]], Hcover as [Hc|[Hc|[]]]; congruence.
      - by rewrite bool_decide_eq_true_2. }
    erewrite bind_inr; [|by apply parse_mode_accepted].
    erewrite (bind_inr (parse_mode (Some "cover"))); [done|reflexivity].
  - reflexivity.
  - intros Hnot.
    assert (Hacc : accepted_mode arg = None).
    { unfold accepted_mode. rewrite !elem_of_cons, elem_of_nil in Hnot.
      rewrite !bool_decide_eq_false_2; [done|..];
        rewrite !elem_of_cons, elem_of_nil; tauto. }
    erewrite bind_inl; [|by apply parse_mode_rejected]. done.
Qed.

End WithCodecs.
End Properties.

(** ** Output names *)

Module Names.
Import Pillow Py Sys Script Spec.

Lemma elem_of_concat {A} (x : A) (ls : list (list A)) :
  x ∈ concat ls <-> exists l, x ∈ l /\ l ∈ ls.
Proof.
  induction ls as [|l ls IH]; simpl.
  - split; [by intros ?%elem_of_nil|]. by intros (l & _ & ?%elem_of_nil).
  - rewrite elem_of_app, IH. split.
    + intros [Hx|(l' & Hx & Hl')]; [exists l|exists l']; split; auto; by constructor.
    + intros (l' & Hx & Hl'). apply elem_of_cons in Hl' as [->|Hl']; eauto.
Qed.

Lemma rsplit_none (s : string) (c : ascii) : occurs c s = false -> rsplit s c = None.
Proof.
  induction s as [|a s IH]; simpl; [done|].
  destruct (decide (a = c)); [done|]. intros Hs. by rewrite IH.
Qed.

(** A string splits at its last separator: at the one that nothing but
    separator-free text follows. *)
Lemma rsplit_app (before after : string) (c : ascii) :
  occurs c after = false -> rsplit (before +:+ String c after) c = Some (before, after).
Proof.
  intros Hafter. induction before as [|a before IH].
  - change ("" +:+ String c after) with (String c after). simpl.
    rewrite rsplit_none by done. by rewrite decide_True.
  - change (String a before +:+ String c after)
      with (String a (before +:+ String c after)).
    simpl. by rewrite IH.
Qed.

Lemma out_name_tail (stem : string) (s : Z) :
  stem +:+ "_" +:+ pretty s +:+ "x" +:+ pretty s +:+ ".png" = stem +:+ String "_" (tail s).
Proof. reflexivity. Qed.

Lemma tail_no_underscore (s : Z) : s ∈ SIZES -> occurs "_" (tail s) = false.
Proof.
  unfold SIZES. intros Hs.
  repeat (apply elem_of_cons in Hs as [->|Hs]; [by vm_compute|]).
  by apply elem_of_nil in Hs.
Qed.

Lemma tail_inj (s s' : Z) : s ∈ SIZES -> s' ∈ SIZES -> tail s = tail s' -> s = s'.
Proof.
  unfold SIZES. intros Hs Hs'.
  repeat (apply elem_of_cons in Hs as [->|Hs]);
    try (by apply elem_of_nil in Hs);
    repeat (apply elem_of_cons in Hs' as [->|Hs']);
    try (by apply elem_of_nil in Hs');
    vm_compute; congruence.
Qed.

Section WithCodecs.
Context `{K : Kernels} `{C : Codecs}.

(** Two outputs have the same path only if they are the output of the
    same size for the same stem. *)
Lemma out_path_inj (p p' : Path) (out_dir : string) (s s' : Z) :
  s ∈ SIZES -> s' ∈ SIZES ->
  out_path p out_dir s = out_path p' out_dir s' -> stem p = stem p' /\ s = s'.
Proof.
  intros Hs Hs' Heq. unfold out_path in Heq. injection Heq as Heq.
  rewrite !out_name_tail in Heq.
  assert (Hsplit : Some (stem p, tail s) = Some (stem p', tail s')).
  { rewrite <- (rsplit_app (stem p) (tail s) "_") by by apply tail_no_underscore.
    rewrite <- (rsplit_app (stem p') (tail s') "_") by by apply tail_no_underscore.
    by rewrite Heq. }
  injection Hsplit as Hstem Htail. split; [done|]. by apply tail_inj.
Qed.

Lemma outputs_same_stem (p p' : Path) (out_dir : string) :
  stem p = stem p' -> outputs p out_dir = outputs p' out_dir.
Proof. intros Heq. unfold outputs, out_path. by rewrite Heq. Qed.

Lemma outputs_length (p : Path) (out_dir : string) : length (outputs p out_dir) = 6%nat.
Proof. reflexivity. Qed.

Lemma elem_of_outputs (p : Path) (out_dir : string) (q : Path) :
  q ∈ outputs p out_dir <-> exists s, s ∈ SIZES /\ q = out_path p out_dir s.
Proof.
  unfold outputs. rewrite list_elem_of_fmap. split; intros (s & H1 & H2); eauto.
Qed.

Lemma outputs_NoDup (p : Path) (out_dir : string) : NoDup (outputs p out_dir).
Proof.
  unfold outputs. apply NoDup_fmap_2_strong.
  - intros s s' Hs Hs' Heq. by destruct (out_path_inj p p out_dir s s' Hs Hs' Heq).
  - apply (bool_decide_unpack _). by vm_compute.
Qed.

(** Files with pairwise distinct stems have pairwise distinct outputs. *)
Lemma all_outputs_NoDup (images : list Path) (out_dir : string) :
  NoDup (stem <$> images) ->
  NoDup (concat ((fun p => outputs p out_dir) <$> images)).
Proof.
  induction images as [|p images IH]; intros Hnd; [constructor|].
  rewrite fmap_cons in Hnd. apply NoDup_cons in Hnd as [Hp Hnd].
  rewrite fmap_cons, concat_cons. apply NoDup_app. split; [apply outputs_NoDup|].
  split; [|by apply IH].
  intros q Hq Hq'. apply elem_of_outputs in Hq as (s & Hs & ->).
  apply elem_of_concat in Hq' as (l & Hq' & Hl).
  apply list_elem_of_fmap in Hl as (p' & -> & Hp').
  apply elem_of_outputs in Hq' as (s' & Hs' & Heq).
  destruct (out_path_inj p p' out_dir s s' Hs Hs' Heq) as [Hstem _].
  apply Hp. rewrite Hstem. by apply list_elem_of_fmap_2.
Qed.

End WithCodecs.
End Names.

(** ** The batch in closed form, for an output directory apart from the input *)

Module ClosedForm.
Import Pillow Py Sys Script Spec Batch Driver Selection Names.
Local Open Scope script_scope.

(** *** Listings under writes *)

Lemma apply_writes_app (ws1 ws2 : list (Path * bytes)) (lo : gmap string entry) :
  apply_writes (ws1 ++ ws2) lo = apply_writes ws2 (apply_writes ws1 lo).
Proof. unfold apply_writes. apply foldl_app. Qed.

Lemma last_write_snoc (n : string) (ws : list (Path * bytes)) (q : Path) (d : bytes) :
  last_write n (ws ++ [(q, d)]) = if decide (name q = n) then Some d else last_write n ws.
Proof. unfold last_write. by rewrite foldl_app. Qed.

(** A name holds what was written to it last, and what it held before
    when nothing was written to it. *)
Lemma lookup_apply_writes (ws : list (Path * bytes)) (lo : gmap string entry) (n : string) :
  apply_writes ws lo !! n =
  match last_write n ws with
  | Some d => Some (RegularFile d)
  | None => lo !! n
  end.
Proof.
  induction ws as [|[q d] ws IH] using rev_ind; [done|].
  rewrite apply_writes_app, last_write_snoc. cbn [apply_writes foldl].
  destruct (decide (name q = n)) as [->|Hne].
  - by rewrite lookup_insert_eq.
  - by rewrite lookup_insert_ne.
Qed.

(** Writing the same sequence a second time changes nothing. *)
Lemma apply_writes_idemp (ws : list (Path * bytes)) (lo : gmap string entry) :
  apply_writes ws (apply_writes ws lo) = apply_writes ws lo.
Proof.
  apply map_eq. intros n. rewrite !lookup_apply_writes.
  by destruct (last_write n ws).
Qed.

Lemma last_write_app (n : string) (ws1 ws2 : list (Path * bytes)) :
  last_write n (ws1 ++ ws2) =
  match last_write n ws2 with Some d => Some d | None => last_write n ws1 end.
Proof.
  induction ws2 as [|[q d] ws2 IH] using rev_ind.
  - by rewrite app_nil_r.
  - rewrite app_assoc, !last_write_snoc. by destruct (decide (name q = n)).
Qed.

Lemma last_write_none (n : string) (ws : list (Path * bytes)) :
  (forall q d, (q, d) ∈ ws -> name q <> n) -> last_write n ws = None.
Proof.
  induction ws as [|[q d] ws IH] using rev_ind; intros Hno; [done|].
  rewrite last_write_snoc. rewrite decide_False.
  - apply IH. intros q' d' Hin. apply (Hno q' d'). apply elem_of_app. by left.
  - apply (Hno q d). apply elem_of_app. right. by constructor.
Qed.

Lemma is_directory_insert (lo : gmap string entry) (n m : string) (d : bytes) :
  is_directory lo n = false ->
  is_directory (<[n := RegularFile d]> lo) m = is_directory lo m.
Proof.
  unfold is_directory. intros Hn. destruct (decide (n = m)) as [->|Hne].
  - rewrite lookup_insert_eq. by destruct (lo !! m) as [[]|].
  - by rewrite lookup_insert_ne.
Qed.

Section WithCodecs.
Context `{K : Kernels} `{C : Codecs}.

(** [save_events] does not look at the files of a listing, only at its
    sub-directories. *)
Lemma save_events_ext (lo lo' : gmap string entry) (img : Image) (p : Path)
    (out_dir mode : string) (ss : list Z) :
  (forall n, is_directory lo' n = is_directory lo n) ->
  save_events lo' img p out_dir mode ss = save_events lo img p out_dir mode ss.
Proof.
  intros Hdir. induction ss as [|s ss IH]; [done|].
  simpl. by rewrite Hdir, IH.
Qed.

Lemma file_events_ext (listing lo lo' : gmap string entry) (p : Path) (out_dir mode : string) :
  (forall n, is_directory lo' n = is_directory lo n) ->
  file_events listing lo' p out_dir mode = file_events listing lo p out_dir mode.
Proof.
  intros Hdir. unfold file_events. destruct (open_result listing p); [done|].
  by rewrite (save_events_ext lo lo').
Qed.

Lemma batch_events_ext (listing lo lo' : gmap string entry) (images : list Path)
    (out_dir mode : string) :
  (forall n, is_directory lo' n = is_directory lo n) ->
  batch_events listing lo' images out_dir mode = batch_events listing lo images out_dir mode.
Proof.
  intros Hdir. unfold batch_events. f_equal. apply list_fmap_ext.
  intros _ p _. by apply file_events_ext.
Qed.

(** *** Opening and saving, read off the listings *)

Lemma Image_open_result (p : Path) (w : World) (listing : gmap string entry) :
  files w !! parent p = Some (Dir listing) ->
  Image_open p w =
    (match open_result listing p with
     | inl e => inl (Exception e)
     | inr img => inr img
     end, w).
Proof.
  intros Hdir. unfold Image_open, bind, read_file, open_result. rewrite Hdir.
  destruct (listing !! name p) as [[data|]|]; [|done..].
  destruct (decode data) as [msg|img]; [done|].
  by destruct (well_formedb img).
Qed.

Lemma Image_save_ok (img : Image) (q : Path) (w : World) (lo : gmap string entry) :
  files w !! parent q = Some (Dir lo) ->
  is_directory lo (name q) = false ->
  Image_save img q w =
    (inr tt,
     mkWorld (<[parent q := Dir (<[name q := RegularFile (encode_png img)]> lo)]> (files w))
             (trace w ++ [Write q (encode_png img)])).
Proof.
  intros Hdir Hfree. unfold Image_save, write_file. rewrite Hdir.
  unfold is_directory in Hfree. by destruct (lo !! name q) as [[]|].
Qed.

Lemma Image_save_blocked (img : Image) (q : Path) (w : World) (lo : gmap string entry) :
  files w !! parent q = Some (Dir lo) ->
  is_directory lo (name q) = true ->
  Image_save img q w =
    (inl (Exception ("[Errno 21] Is a directory: '" +:+ path_str q +:+ "'")), w).
Proof.
  intros Hdir Hblocked. unfold Image_save, write_file. rewrite Hdir.
  unfold is_directory in Hblocked. by destruct (lo !! name q) as [[]|].
Qed.

Lemma world_eta (w : World) (lo : gmap string entry) (d : string) :
  files w !! d = Some (Dir lo) ->
  mkWorld (<[d := Dir lo]> (files w)) (trace w ++ []) = w.
Proof. intros Hd. destruct w as [f t]. simpl in *. by rewrite insert_id, app_nil_r. Qed.

(** The loop over the sizes. *)
Lemma save_loop_closed (lo : gmap string entry) (img : Image) (p : Path)
    (out_dir mode : string) (ss : list Z) (w : World) (lo' : gmap string entry) :
  files w !! out_dir = Some (Dir lo') ->
  (forall n, is_directory lo' n = is_directory lo n) ->
  let evs := (save_events lo img p out_dir mode ss).1 in
  let r := (save_events lo img p out_dir mode ss).2 in
  for_each ss (save_output img p out_dir mode) w =
    (match r with None => inr tt | Some e => inl (Exception e) end,
     mkWorld (<[out_dir := Dir (apply_writes (writes evs) lo')]> (files w))
             (trace w ++ evs)) /\
  (forall n, is_directory (apply_writes (writes evs) lo') n = is_directory lo n).
Proof.
  revert w lo'. induction ss as [|s ss IH]; intros w lo' Hout Hdir.
  - simpl. split; [|done]. unfold ret. by rewrite world_eta.
  - cbn [save_events]. rewrite for_each_cons. unfold bind, save_output at 1.
    destruct (is_directory lo (name (out_path p out_dir s))) eqn:Hblocked.
    + erewrite Image_save_blocked; [|exact Hout|by rewrite Hdir].
      cbn [fst snd]. split; [|done]. by rewrite world_eta.
    + erewrite Image_save_ok; [|exact Hout|by rewrite Hdir].
      cbn [parent name out_path].
      set (d := encode_png (transform mode img s)).
      set (q := out_path p out_dir s).
      set (w1 := mkWorld _ _).
      assert (Hout1 : files w1 !! out_dir =
                Some (Dir (<[name q := RegularFile d]> lo'))).
      { unfold w1. cbn [files]. by rewrite lookup_insert_eq. }
      assert (Hdir1 : forall n, is_directory (<[name q := RegularFile d]> lo') n =
                                is_directory lo n).
      { intros n. rewrite is_directory_insert; [done|]. by rewrite Hdir. }
      destruct (IH w1 _ Hout1 Hdir1) as [Hloop Hdir2].
      destruct (save_events lo img p out_dir mode ss) as [evs r]. cbn [fst snd] in *.
      rewrite Hloop. split; [|exact Hdir2].
      f_equal. unfold w1. cbn [files trace]. f_equal.
      * by rewrite insert_insert_eq.
      * by rewrite <- app_assoc.
Qed.

(** One file. *)
Lemma process_image_closed (listing lo : gmap string entry) (p : Path)
    (out_dir mode : string) (w : World) (lo' : gmap string entry) :
  files w !! parent p = Some (Dir listing) ->
  files w !! out_dir = Some (Dir lo') ->
  (forall n, is_directory lo' n = is_directory lo n) ->
  let evs := file_events listing lo p out_dir mode in
  process_image p out_dir mode w =
    (inr tt,
     mkWorld (<[out_dir := Dir (apply_writes (writes evs) lo')]> (files w))
             (trace w ++ evs)) /\
  (forall n, is_directory (apply_writes (writes evs) lo') n = is_directory lo n).
Proof.
  intros Hin Hout Hdir evs. subst evs. unfold file_events.
  rewrite process_image_unfold. unfold try_except, bind at 1.
  rewrite (Image_open_result p w listing Hin).
  destruct (open_result listing p) as [e|img].
  - split; [|done]. unfold print. cbn [writes omap apply_writes foldl].
    destruct w as [f t]. cbn [files trace] in *. by rewrite insert_id.
  - unfold bind at 1.
    destruct (save_loop_closed lo img p out_dir mode SIZES w lo' Hout Hdir) as [Hloop Hdir'].
    destruct (save_events lo img p out_dir mode SIZES) as [evs r]. cbn [fst snd] in *.
    rewrite Hloop. rewrite writes_app.
    assert (Hw : forall line, writes [Print line] = []) by done.
    rewrite Hw, app_nil_r. split; [|exact Hdir'].
    destruct r as [e|]; unfold print; cbn [files trace]; by rewrite <- app_assoc.
Qed.

(** The loop of [main]: its events and the listing it leaves are those
    the listings it started from determine. *)
Lemma process_all_closed (listing lo : gmap string entry) (images : list Path)
    (in_dir out_dir mode : string) (w : World) (lo' : gmap string entry) :
  in_dir <> out_dir ->
  Forall (fun p => parent p = in_dir) images ->
  files w !! in_dir = Some (Dir listing) ->
  files w !! out_dir = Some (Dir lo') ->
  (forall n, is_directory lo' n = is_directory lo n) ->
  let evs := batch_events listing lo images out_dir mode in
  process_all images out_dir mode w =
    (inr tt,
     mkWorld (<[out_dir := Dir (apply_writes (writes evs) lo')]> (files w))
             (trace w ++ evs)) /\
  (forall n, is_directory (apply_writes (writes evs) lo') n = is_directory lo n).
Proof.
  intros Hne Hparent. revert w lo'.
  induction Hparent as [|p images Hp Hparent IH]; intros w lo' Hin Hout Hdir.
  - cbn. split; [|done]. unfold ret. by rewrite world_eta.
  - unfold process_all. rewrite for_each_cons. unfold bind.
    rewrite <- Hp in Hin.
    destruct (process_image_closed listing lo p out_dir mode w lo' Hin Hout Hdir)
      as [Hstep Hdir1].
    rewrite Hstep.
    set (ev := file_events listing lo p out_dir mode) in *.
    set (w1 := mkWorld _ _).
    assert (Hin1 : files w1 !! in_dir = Some (Dir listing)).
    { unfold w1. cbn [files]. rewrite lookup_insert_ne by done. by rewrite <- Hp. }
    assert (Hout1 : files w1 !! out_dir = Some (Dir (apply_writes (writes ev) lo'))).
    { unfold w1. cbn [files]. by rewrite lookup_insert_eq. }
    destruct (IH w1 _ Hin1 Hout1 Hdir1) as [Hrest Hdir2].
    unfold process_all in Hrest. rewrite Hrest.
    unfold batch_events. rewrite fmap_cons, concat_cons. fold ev.
    fold (batch_events listing lo images out_dir mode).
    rewrite writes_app, apply_writes_app. split; [|exact Hdir2].
    unfold w1. cbn [files trace]. by rewrite insert_insert_eq, <- app_assoc.
Qed.

End WithCodecs.
End ClosedForm.

(** ** Running the script a second time *)

Module Rerun.
Import Pillow Py Sys Script Spec Batch Driver Selection Names ClosedForm Properties.
Local Open Scope script_scope.

Section WithCodecs.
Context `{K : Kernels} `{C : Codecs}.

Lemma select_images_parent (in_dir : string) (listing : gmap string entry) :
  Forall (fun p => parent p = in_dir) (select_images in_dir listing).
Proof. apply Forall_forall. intros p Hp. by apply select_images_elem in Hp as [? _]. Qed.

Lemma new_events_refl (w : World) : new_events w w = [].
Proof. unfold new_events. apply drop_all. Qed.

Lemma with_dir_idemp (out_dir : string) (w : World) (lo : gmap string entry) :
  files w !! out_dir = Some (Dir lo) -> with_dir out_dir w = w.
Proof. intros Hout. unfold with_dir. by rewrite Hout. Qed.

Lemma parse_mode_cases (arg3 : option string) :
  (exists mode, forall w, parse_mode arg3 w = (inr mode, w)) \/
  (forall w, parse_mode arg3 w =
     (inl (SystemExit 2),
      mkWorld (files w) (trace w ++ [Print "Ungültiger --mode. Erlaubt: fit | cover"]))).
Proof.
  destruct arg3 as [arg|]; [|left; by exists "fit"].
  destruct (accepted_mode arg) as [mode|] eqn:Hacc.
  - left. exists mode. intros w. by apply parse_mode_accepted.
  - right. intros w. by apply parse_mode_rejected.
Qed.

(** From the check of the input directory on, a second run does what the
    first did and leaves the files as the first left them. *)
Lemma check_and_batch_rerun (in_dir out_dir mode : string) (w : World) :
  in_dir <> out_dir ->
  let r1 := check_and_batch in_dir out_dir mode w in
  let r2 := check_and_batch in_dir out_dir mode r1.2 in
  r2.1 = r1.1 /\ files r2.2 = files r1.2 /\ new_events r1.2 r2.2 = new_events w r1.2.
Proof.
  intros Hne r1 r2. subst r1 r2.
  destruct (files w !! in_dir) as [[data|listing]|] eqn:Hin.
  1,3: rewrite (check_missing_dir in_dir out_dir mode w) by (intros l; congruence);
       cbn [fst snd]; rewrite check_missing_dir by (intros l; cbn [files]; congruence);
       cbn [fst snd files trace]; split; [done|]; split; [done|];
       by rewrite !(new_events_app _ _ [Print ("Eingabeordner nicht gefunden: " +:+ in_dir)]).
  destruct (files w !! out_dir) as [[data|lo]|] eqn:Hout.
  { rewrite (check_mkdir_fails in_dir out_dir mode w listing data Hin Hout). cbn [fst snd].
    rewrite (check_mkdir_fails in_dir out_dir mode w listing data Hin Hout). cbn [fst snd].
    done. }
  all: assert (Hfree : forall data, files w !! out_dir <> Some (File data)) by (intros d; congruence).
  all: rewrite (check_batch in_dir out_dir mode w listing Hin Hfree).
  all: pose proof (with_dir_listing in_dir out_dir w listing Hin) as Hin0.
  all: destruct (with_dir_is_dir out_dir w Hfree) as [lo0 Hout0].
  all: pose proof (with_dir_trace out_dir w) as Htr0.
  all: set (w0 := with_dir out_dir w) in *; clearbody w0.
  all: set (images := select_images in_dir listing).
  all: destruct (decide (images = [])) as [Hempty|Hnonempty].
  1,3: rewrite Hempty, batch_empty; cbn [fst snd];
       rewrite (check_batch in_dir out_dir mode _ listing)
         by (cbn [files]; first [exact Hin0 | intros d; congruence]);
       fold images; rewrite Hempty, batch_empty; cbn [fst snd files trace];
       rewrite (with_dir_idemp out_dir _ lo0) by exact Hout0;
       cbn [files trace]; split; [done|]; split; [done|];
       rewrite Htr0;
       by rewrite !(new_events_app _ _
            [Print "Keine unterstützten Bilddateien im Eingabeordner gefunden."]).
  all: rewrite batch_nonempty by done.
  all: set (hd := Print (header_line (length images) in_dir out_dir mode)).
  all: destruct (process_all_closed listing lo0 images in_dir out_dir mode
                   (mkWorld (files w0) (trace w0 ++ [hd])) lo0 Hne
                   (select_images_parent in_dir listing) Hin0 Hout0 (fun n => eq_refl))
         as [Hfirst Hdir].
  all: rewrite Hfirst; cbn [fst snd files trace].
  all: set (E := batch_events listing lo0 images out_dir mode) in *.
  all: set (lo1 := apply_writes (writes E) lo0) in *.
  all: set (w1 := mkWorld _ _).
  all: assert (Hin1 : files w1 !! in_dir = Some (Dir listing))
         by (unfold w1; cbn [files]; by rewrite lookup_insert_ne).
  all: assert (Hout1 : files w1 !! out_dir = Some (Dir lo1))
         by (unfold w1; cbn [files]; by rewrite lookup_insert_eq).
  all: rewrite (check_batch in_dir out_dir mode w1 listing Hin1)
         by (intros d; congruence).
  all: rewrite (with_dir_idemp out_dir w1 lo1 Hout1).
  all: fold images; rewrite batch_nonempty by done; fold hd.
  all: destruct (process_all_closed listing lo0 images in_dir out_dir mode
                   (mkWorld (files w1) (trace w1 ++ [hd])) lo1 Hne
                   (select_images_parent in_dir listing) Hin1 Hout1 Hdir)
         as [Hsecond _].
  all: rewrite Hsecond; cbn [fst snd files trace]; fold E.
  all: split; [done|]; split.
  1,3: unfold lo1; rewrite apply_writes_idemp; unfold w1; cbn [files];
       by rewrite insert_insert_eq.
  all: rewrite (new_events_app w1 _ (hd :: E))
         by (cbn [trace]; by rewrite <- app_assoc).
  all: symmetry; apply new_events_app; unfold w1; cbn [trace];
       by rewrite Htr0, <- app_assoc.
Qed.

Lemma with_dir_out (out_dir : string) (w : World) :
  (forall data, files w !! out_dir <> Some (File data)) ->
  files (with_dir out_dir w) !! out_dir =
    Some (Dir (match files w !! out_dir with Some (Dir lo) => lo | _ => ∅ end)).
Proof.
  intros Hfree. unfold with_dir.
  destruct (files w !! out_dir) as [[data|lo]|] eqn:Hout.
  - by destruct (Hfree data).
  - done.
  - cbn [files]. by rewrite lookup_insert_eq.
Qed.

(** From the check of the input directory on, a run depends on the world
    through the input and the output directory only. *)
Lemma check_and_batch_agree (in_dir out_dir mode : string) (w wb : World) :
  in_dir <> out_dir ->
  files wb !! in_dir = files w !! in_dir ->
  files wb !! out_dir = files w !! out_dir ->
  let r := check_and_batch in_dir out_dir mode w in
  let rb := check_and_batch in_dir out_dir mode wb in
  rb.1 = r.1 /\ new_events wb rb.2 = new_events w r.2 /\
  files rb.2 !! out_dir = files r.2 !! out_dir.
Proof.
  intros Hne Hinb Houtb r rb. subst r rb.
  destruct (files w !! in_dir) as [[data|listing]|] eqn:Hin.
  1,3: rewrite (check_missing_dir in_dir out_dir mode w) by (intros l; congruence);
       rewrite (check_missing_dir in_dir out_dir mode wb) by (intros l; congruence);
       cbn [fst snd files]; split; [done|]; split; [|done];
       by rewrite !(new_events_app _ _ [Print ("Eingabeordner nicht gefunden: " +:+ in_dir)]).
  assert (Hcases : (exists data, files w !! out_dir = Some (File data)) \/
                   (forall data, files w !! out_dir <> Some (File data))).
  { destruct (files w !! out_dir) as [[data|lo]|]; [left; eauto|right; done..]. }
  destruct Hcases as [[data Hout]|Hfree'].
  { rewrite (check_mkdir_fails in_dir out_dir mode w listing data Hin Hout).
    rewrite (check_mkdir_fails in_dir out_dir mode wb listing data) by congruence.
    cbn [fst snd]. by rewrite !new_events_refl. }
  assert (Hfreeb : forall data, files wb !! out_dir <> Some (File data))
    by (intros d; rewrite Houtb; apply Hfree').
  rewrite (check_batch in_dir out_dir mode w listing Hin Hfree').
  rewrite (check_batch in_dir out_dir mode wb listing) by (done || congruence).
  pose proof (with_dir_out out_dir w Hfree') as Hout0.
  pose proof (with_dir_out out_dir wb Hfreeb) as Houtb0. rewrite Houtb in Houtb0.
  set (lo0 := match files w !! out_dir with Some (Dir lo) => lo | _ => ∅ end) in *.
  assert (Hin0 : files (with_dir out_dir w) !! in_dir = Some (Dir listing))
    by by apply with_dir_listing.
  assert (Hinb0 : files (with_dir out_dir wb) !! in_dir = Some (Dir listing))
    by (apply with_dir_listing; congruence).
  pose proof (with_dir_trace out_dir w) as Htr0.
  pose proof (with_dir_trace out_dir wb) as Htrb0.
  set (w0 := with_dir out_dir w) in *. set (wb0 := with_dir out_dir wb) in *.
  clearbody w0 wb0 lo0.
  set (images := select_images in_dir listing).
  destruct (decide (images = [])) as [Hempty|Hnonempty].
  { rewrite Hempty, !batch_empty. cbn [fst snd files trace].
    split; [done|]. split; [|congruence].
    rewrite Htr0, Htrb0.
    by rewrite !(new_events_app _ _
         [Print "Keine unterstützten Bilddateien im Eingabeordner gefunden."]). }
  rewrite !batch_nonempty by done.
  set (hd := Print (header_line (length images) in_dir out_dir mode)).
  destruct (process_all_closed listing lo0 images in_dir out_dir mode
              (mkWorld (files w0) (trace w0 ++ [hd])) lo0 Hne
              (select_images_parent in_dir listing) Hin0 Hout0 (fun n => eq_refl))
    as [Hrun _].
  destruct (process_all_closed listing lo0 images in_dir out_dir mode
              (mkWorld (files wb0) (trace wb0 ++ [hd])) lo0 Hne
              (select_images_parent in_dir listing) Hinb0 Houtb0 (fun n => eq_refl))
    as [Hrunb _].
  rewrite Hrun, Hrunb. cbn [fst snd files trace].
  set (E := batch_events listing lo0 images out_dir mode).
  split; [done|]. split; [|by rewrite !lookup_insert_eq].
  rewrite (new_events_app wb _ (hd :: E)) by (cbn [trace]; by rewrite Htrb0, <- app_assoc).
  symmetry. apply new_events_app. cbn [trace]. by rewrite Htr0, <- app_assoc.
Qed.

(** C7.  With the output directory apart from the input directory (so
    that a run leaves its own input as it found it), a second run on what
    the first run left does exactly what the first did: the same exit
    status, the same lines, the same files written with the same bytes;
    and it leaves every file as the first run left it.  More generally a
    run in any world with the same input directory and the same output
    directory has the same exit status, prints the same lines, writes the
    same files with the same bytes and leaves the same output directory. *)
Theorem rerun_reproduces_outputs (argv : list string) (w : World) :
  (forall i o, argv !! 1%nat = Some i -> argv !! 2%nat = Some o -> resolve i <> resolve o) ->
  let r1 := run argv w in
  let r2 := run argv r1.2 in
  (r2.1 = r1.1 /\
   files r2.2 = files r1.2 /\
   new_events r1.2 r2.2 = new_events w r1.2 /\
   writes (new_events r1.2 r2.2) = writes (new_events w r1.2)) /\
  (forall wb,
     (forall i, argv !! 1%nat = Some i -> files wb !! resolve i = files w !! resolve i) ->
     (forall o, argv !! 2%nat = Some o -> files wb !! resolve o = files w !! resolve o) ->
     let rb := run argv wb in
     rb.1 = r1.1 /\
     new_events wb rb.2 = new_events w r1.2 /\
     writes (new_events wb rb.2) = writes (new_events w r1.2) /\
     (forall o, argv !! 2%nat = Some o -> files rb.2 !! resolve o = files r1.2 !! resolve o)).
Proof.
  intros Hapart r1 r2. split.
  - cut (r2.1 = r1.1 /\ files r2.2 = files r1.2 /\
         new_events r1.2 r2.2 = new_events w r1.2).
    { intros (H1 & H2 & H3). by rewrite H3. }
    subst r1 r2. rewrite !run_unfold. cbn [fst snd].
    destruct (decide (length argv < 3)%nat) as [Hshort|Hlong].
    { rewrite !main_usage by done. cbn [fst snd files trace].
      split; [done|]. split; [done|].
      by rewrite !(new_events_app _ _ [Print __doc__]). }
    destruct argv as [|prog [|i [|o rest]]]; try (simpl in Hlong; lia).
    specialize (Hapart i o eq_refl eq_refl).
    rewrite !main_unfold.
    destruct (parse_mode_cases (head rest)) as [[mode Hmode]|Hbad].
    + rewrite !(bind_inr _ _ _ _ _ (Hmode _)).
      destruct (check_and_batch_rerun (resolve i) (resolve o) mode w Hapart)
        as (H1 & H2 & H3).
      split; [by rewrite H1|]. done.
    + rewrite !(bind_inl _ _ _ _ _ (Hbad _)). cbn [fst snd files trace].
      split; [done|]. split; [done|].
      by rewrite !(new_events_app _ _ [Print "Ungültiger --mode. Erlaubt: fit | cover"]).
  - intros wb Hin Hout rb.
    cut (rb.1 = r1.1 /\ new_events wb rb.2 = new_events w r1.2 /\
         (forall o, argv !! 2%nat = Some o ->
                    files rb.2 !! resolve o = files r1.2 !! resolve o)).
    { intros (H1 & H2 & H3). by rewrite H2. }
    subst r1 rb. rewrite !run_unfold. cbn [fst snd].
    destruct (decide (length argv < 3)%nat) as [Hshort|Hlong].
    { rewrite !main_usage by done. cbn [fst snd files trace].
      split; [done|]. split; [|exact Hout].
      by rewrite !(new_events_app _ _ [Print __doc__]). }
    destruct argv as [|prog [|i [|o rest]]]; try (simpl in Hlong; lia).
    specialize (Hapart i o eq_refl eq_refl).
    specialize (Hin i eq_refl). specialize (Hout o eq_refl).
    rewrite !main_unfold.
    destruct (parse_mode_cases (head rest)) as [[mode Hmode]|Hbad].
    + rewrite !(bind_inr _ _ _ _ _ (Hmode _)).
      destruct (check_and_batch_agree (resolve i) (resolve o) mode w wb Hapart Hin Hout)
        as (H1 & H2 & H3).
      split; [by rewrite H1|]. split; [done|].
      intros o' Ho'. simpl in Ho'. by injection Ho' as <-.
    + rewrite !(bind_inl _ _ _ _ _ (Hbad _)). cbn [fst snd files trace].
      split; [done|]. split.
      * by rewrite !(new_events_app _ _
             [Print "Ungültiger --mode. Erlaubt: fit | cover"]).
      * intros o' Ho'. simpl in Ho'. by injection Ho' as <-.
Qed.

End WithCodecs.
End Rerun.

(** ** The output files of a batch *)

Module Outputs.
Import Pillow Py Sys Script Spec Batch Driver Selection Names ClosedForm Properties Rerun.
Local Open Scope script_scope.

Section WithCodecs.
Context `{K : Kernels} `{C : Codecs}.

(** What a report says about the outputs of its file. *)
Lemma file_report_shape (out_dir mode : string) (p : Path) (ev : list event) :
  file_report out_dir mode p ev ->
  exists (k : nat) (line : string),
    (writes ev).*1 = take k (outputs p out_dir) /\
    stdout ev = [line] /\
    ((k = 6%nat /\ line = ok_line p) \/ ((k < 6)%nat /\ exists e, line = error_line p e)).
Proof.
  intros [e|img k e Hwf Hk|img Hwf].
  - exists 0%nat, (error_line p e). split; [done|]. split; [done|].
    right. split; [lia|eauto].
  - exists k, (error_line p e).
    rewrite writes_app, stdout_app, stdout_file_writes, app_nil_r.
    split; [apply writes_file_writes|]. split; [done|].
    right. split; [exact Hk|eauto].
  - exists 6%nat, (ok_line p).
    rewrite writes_app, stdout_app, stdout_file_writes, app_nil_r.
    split; [apply writes_file_writes|]. split; [done|]. by left.
Qed.

Lemma ok_line_not_error (p : Path) (e : string) : ok_line p <> error_line p e.
Proof. unfold ok_line, error_line. discriminate. Qed.

Lemma reports_all_ok (out_dir mode : string) (images : list Path) (evs : list (list event)) :
  Forall2 (file_report out_dir mode) images evs ->
  Forall2 (fun p ev => stdout ev = [ok_line p]) images evs ->
  (writes (concat evs)).*1 = concat ((fun p => outputs p out_dir) <$> images).
Proof.
  induction 1 as [|p ev images evs Hrep _ IH]; intros Hok; [done|].
  apply Forall2_cons in Hok as [Hok Hoks].
  rewrite fmap_cons, !concat_cons, writes_app, fmap_app, (IH Hoks). f_equal.
  destruct (file_report_shape _ _ _ _ Hrep) as (k & line & Hw & Hline & Hk).
  rewrite Hw. destruct Hk as [[-> _]|[_ [e ->]]]; [done|].
  rewrite Hok in Hline. injection Hline as Hline. by destruct (ok_line_not_error p e).
Qed.

Lemma concat_outputs_length (images : list Path) (out_dir : string) :
  length (concat ((fun p => outputs p out_dir) <$> images)) = (length images * 6)%nat.
Proof.
  induction images as [|p images IH]; [done|].
  rewrite fmap_cons, concat_cons, length_app, IH, outputs_length. simpl. lia.
Qed.

(** C3, as the code has it.  In a batch over N matched files, each file
    gets, in order, the outputs {stem}_{size}x{size}.png of a prefix of the
    six sizes and one status line: all six with the OK line, fewer with an
    error line (no output for the size at which the error was raised nor
    for a later one).  When no file has an error line that is N x 6 writes,
    to N x 6 different files when the stems differ; and a file that cannot
    be opened or decoded gets no output at all. *)
Theorem outputs_of_a_batch (argv : list string) (w : World)
    (in_dir out_dir mode : string) (listing : gmap string entry) :
  batch_run argv w in_dir out_dir mode listing ->
  let images := select_images in_dir listing in
  let w' := (run argv w).2 in
  images <> [] ->
  exists evs : list (list event),
    new_events w w' = Print (header_line (length images) in_dir out_dir mode) :: concat evs /\
    Forall2 (fun p ev =>
       exists (k : nat) (line : string),
         (writes ev).*1 = take k (outputs p out_dir) /\
         stdout ev = [line] /\
         ((k = 6%nat /\ line = ok_line p) \/ ((k < 6)%nat /\ exists e, line = error_line p e)))
      images evs /\
    (forall p, outputs p out_dir =
       (fun s => mkPath out_dir (stem p +:+ "_" +:+ pretty s +:+ "x" +:+ pretty s +:+ ".png"))
       <$> [1024; 512; 256; 128; 64; 32]%Z) /\
    (Forall2 (fun p ev => stdout ev = [ok_line p]) images evs ->
     (writes (new_events w w')).*1 = concat ((fun p => outputs p out_dir) <$> images) /\
     length (writes (new_events w w')) = (length images * 6)%nat) /\
    (NoDup (stem <$> images) ->
     NoDup (concat ((fun p => outputs p out_dir) <$> images))) /\
    (forall p w0 e, Image_open p w0 = (inl (Exception e), w0) ->
       new_events w0 (process_image p out_dir mode w0).2 = [Print (error_line p e)]).
Proof.
  intros Hrun images w' Hne. subst w'. rewrite run_unfold. cbn [snd].
  destruct (batch_run_trace _ _ _ _ _ _ Hrun Hne) as (w1 & evs & Hmain & Ht & Hreps).
  rewrite Hmain. cbn [snd]. rewrite (new_events_app _ _ _ Ht).
  exists evs. split; [done|]. split.
  { eapply Forall2_impl; [exact Hreps|]. intros p ev Hrep. exact (file_report_shape out_dir mode p ev Hrep). }
  split; [done|]. split.
  { intros Hok.
    change (Print ?l :: ?t) with ([Print l] ++ t). rewrite writes_app.
    assert (Hnil : forall l, writes [Print l] = []) by done.
    rewrite Hnil, app_nil_l.
    pose proof (reports_all_ok _ _ _ _ Hreps Hok) as Hall. split; [done|].
    rewrite <- (length_fmap fst), Hall. apply concat_outputs_length. }
  split; [apply all_outputs_NoDup|].
  intros p w0 e Hopen. rewrite (process_image_open_error p out_dir mode w0 e Hopen).
  cbn [snd]. by apply new_events_app.
Qed.

(** *** Files that share a stem *)

Lemma last_write_NoDup (ws : list (Path * bytes)) (q : Path) (d : bytes) :
  NoDup ((fun x => name x.1) <$> ws) -> (q, d) ∈ ws -> last_write (name q) ws = Some d.
Proof.
  induction ws as [|[q' d'] ws IH] using rev_ind; intros Hnd Hin.
  - by apply elem_of_nil in Hin.
  - rewrite fmap_app in Hnd. apply NoDup_app in Hnd as (Hnd & Hdisj & _).
    rewrite last_write_snoc. apply elem_of_app in Hin as [Hin|Hin].
    + rewrite decide_False; [by apply IH|].
      intros Heq. apply (Hdisj (name q)).
      * apply list_elem_of_fmap. by exists (q, d).
      * simpl. rewrite Heq. by constructor.
    + apply list_elem_of_singleton in Hin. injection Hin as -> ->.
      by rewrite decide_True.
Qed.

(** With no output name taken by a sub-directory, the loop saves all the
    sizes. *)
Lemma save_events_free (lo : gmap string entry) (img : Image) (p : Path)
    (out_dir mode : string) (ss : list Z) :
  (forall s, s ∈ ss -> is_directory lo (name (out_path p out_dir s)) = false) ->
  save_events lo img p out_dir mode ss =
    ((fun s => Write (out_path p out_dir s) (encode_png (transform mode img s))) <$> ss, None).
Proof.
  induction ss as [|s ss IH]; intros Hfree; [done|].
  cbn [save_events]. rewrite Hfree by by left.
  rewrite IH; [done|]. intros s' Hs'. apply Hfree. by right.
Qed.

Lemma writes_of_saves (img : Image) (p : Path) (out_dir mode : string) (ss : list Z) :
  writes ((fun s => Write (out_path p out_dir s) (encode_png (transform mode img s))) <$> ss)
  = (fun s => (out_path p out_dir s, encode_png (transform mode img s))) <$> ss.
Proof. induction ss as [|s ss IH]; [done|]. cbn. by rewrite <- IH. Qed.

(** The writes of the events of a file go to outputs of that file. *)
Lemma save_events_writes (lo : gmap string entry) (img : Image) (p : Path)
    (out_dir mode : string) (ss : list Z) (q : Path) (d : bytes) :
  (q, d) ∈ writes (save_events lo img p out_dir mode ss).1 ->
  exists s, s ∈ ss /\ q = out_path p out_dir s.
Proof.
  induction ss as [|s ss IH]; cbn [save_events].
  - intros Hin. by apply elem_of_nil in Hin.
  - destruct (is_directory lo _).
    { intros Hin. by apply elem_of_nil in Hin. }
    destruct (save_events lo img p out_dir mode ss) as [evs r]. cbn [fst] in *.
    cbn. intros Hin. apply elem_of_cons in Hin as [Heq|Hin].
    + injection Heq as -> _. exists s. split; [by left|done].
    + destruct (IH Hin) as (s' & Hs' & ->). exists s'. split; [by right|done].
Qed.

Lemma file_events_writes (listing lo : gmap string entry) (p : Path)
    (out_dir mode : string) (q : Path) (d : bytes) :
  (q, d) ∈ writes (file_events listing lo p out_dir mode) ->
  exists s, s ∈ SIZES /\ q = out_path p out_dir s.
Proof.
  unfold file_events. destruct (open_result listing p) as [e|img].
  { intros Hin. by apply elem_of_nil in Hin. }
  pose proof (save_events_writes lo img p out_dir mode SIZES q d) as Hsave.
  destruct (save_events lo img p out_dir mode SIZES) as [evs r]. cbn [fst] in Hsave.
  rewrite writes_app. assert (Hnil : forall l, writes [Print l] = []) by done.
  rewrite Hnil, app_nil_r. exact Hsave.
Qed.

Lemma batch_events_app (listing lo : gmap string entry) (l1 l2 : list Path)
    (out_dir mode : string) :
  batch_events listing lo (l1 ++ l2) out_dir mode =
  batch_events listing lo l1 out_dir mode ++ batch_events listing lo l2 out_dir mode.
Proof. unfold batch_events. by rewrite fmap_app, concat_app. Qed.

Lemma batch_events_writes (listing lo : gmap string entry) (images : list Path)
    (out_dir mode : string) (q : Path) (d : bytes) :
  (q, d) ∈ writes (batch_events listing lo images out_dir mode) ->
  exists p s, p ∈ images /\ s ∈ SIZES /\ q = out_path p out_dir s.
Proof.
  induction images as [|p images IH]; intros Hin.
  - by apply elem_of_nil in Hin.
  - change (p :: images) with ([p] ++ images) in Hin.
    rewrite batch_events_app, writes_app in Hin. apply elem_of_app in Hin as [Hin|Hin].
    + unfold batch_events in Hin. cbn in Hin. rewrite app_nil_r in Hin.
      destruct (file_events_writes _ _ _ _ _ _ _ Hin) as (s & Hs & ->).
      exists p, s. split; [by left|done].
    + destruct (IH Hin) as (p' & s & Hp' & Hs & ->).
      exists p', s. split; [by right|done].
Qed.

(** C9.  Two matched files that share a stem, the second processed after
    the first (its name is the greater one): their six outputs have the
    same names; any set of distinct files written by the batch has fewer
    than N x 6 members; the console shows the header and the status lines
    and nothing else.  With the output directory apart from the input,
    when the second file decodes, none of its output names is taken by a
    sub-directory and no file after it shares the stem, the six outputs in
    the output directory after the batch are those of the second file. *)
Theorem same_stem_overwrites (argv : list string) (w : World)
    (in_dir out_dir mode : string) (listing : gmap string entry)
    (l1 l2 l3 : list Path) (p1 p2 : Path) :
  batch_run argv w in_dir out_dir mode listing ->
  select_images in_dir listing = l1 ++ p1 :: l2 ++ p2 :: l3 ->
  stem p1 = stem p2 ->
  let images := select_images in_dir listing in
  let w' := (run argv w).2 in
  (name p1 ≤ name p2)%string /\ p1 <> p2 /\
  outputs p1 out_dir = outputs p2 out_dir /\
  (forall l, NoDup l -> (forall q, q ∈ l -> q ∈ (writes (new_events w w')).*1) ->
     (length l < length images * 6)%nat) /\
  (exists lines,
     stdout (new_events w w') = header_line (length images) in_dir out_dir mode :: lines /\
     Forall2 status_line images lines) /\
  (in_dir <> out_dir ->
   forall img2 lo,
     open_result listing p2 = inr img2 ->
     files (with_dir out_dir w) !! out_dir = Some (Dir lo) ->
     (forall s, s ∈ SIZES -> is_directory lo (name (out_path p2 out_dir s)) = false) ->
     (forall q, q ∈ l3 -> stem q <> stem p2) ->
     forall s, s ∈ SIZES ->
     exists lo', files w' !! out_dir = Some (Dir lo') /\
       lo' !! name (out_path p2 out_dir s) =
         Some (RegularFile (encode_png (transform mode img2 s)))).
Proof.
  intros Hrun Hsplit Hstem images w'.
  assert (Hne : images <> []).
  { unfold images. rewrite Hsplit. by destruct l1. }
  pose proof (select_images_sorted in_dir listing) as Hsorted.
  pose proof (select_images_NoDup in_dir listing) as Hnd.
  fold images in Hsorted, Hnd.
  assert (Himages : images = (l1 ++ p1 :: l2) ++ p2 :: l3).
  { unfold images. by rewrite Hsplit, <- app_assoc. }
  assert (Hp1 : p1 ∈ l1 ++ p1 :: l2) by (apply elem_of_app; right; by left).
  assert (Hp2 : p2 ∈ p2 :: l3) by by left.
  split.
  { rewrite Himages in Hsorted.
    exact (StronglySorted_app_1_elem_of _ _ _ _ _ Hsorted Hp1 Hp2). }
  split.
  { rewrite Himages in Hnd. apply NoDup_app in Hnd as (_ & Hdisj & _).
    intros ->. by apply (Hdisj p2). }
  split; [by apply outputs_same_stem|].
  subst w'. rewrite run_unfold. cbn [snd].
  destruct (batch_run_trace _ _ _ _ _ _ Hrun Hne) as (w1 & evs & Hmain & Ht & Hreps).
  fold images in Ht, Hreps.
  rewrite Hmain. cbn [snd]. rewrite (new_events_app _ _ _ Ht).
  split; [|split].
  - (* fewer than N x 6 distinct files *)
    intros l Hl Hsub.
    set (others := l1 ++ l2 ++ p2 :: l3).
    assert (Hlen : length images = S (length others)).
    { unfold images, others. rewrite Hsplit, !length_app. simpl. rewrite !length_app.
      simpl. lia. }
    assert (Hin : forall q, q ∈ l -> q ∈ concat ((fun p => outputs p out_dir) <$> others)).
    { intros q Hq. apply Hsub in Hq.
      apply list_elem_of_fmap in Hq as ([q' d] & -> & Hq).
      change (Print ?h :: ?t) with ([Print h] ++ t) in Hq.
      rewrite writes_app in Hq. cbn in Hq.
      destruct (reports_writes _ _ _ _ Hreps q' d Hq) as (p & s & Hp & Hs & ->).
      apply elem_of_concat.
      assert (Hp' : exists p', p' ∈ others /\ stem p' = stem p).
      { unfold images in Hp. rewrite Hsplit in Hp. unfold others.
        rewrite !elem_of_app, !elem_of_cons, !elem_of_app, !elem_of_cons in Hp.
        destruct Hp as [Hp|[->|[Hp|[->|Hp]]]].
        - exists p. rewrite !elem_of_app, !elem_of_cons. auto.
        - exists p2. rewrite !elem_of_app, !elem_of_cons. auto.
        - exists p. rewrite !elem_of_app, !elem_of_cons. auto.
        - exists p2. rewrite !elem_of_app, !elem_of_cons. auto.
        - exists p. rewrite !elem_of_app, !elem_of_cons. auto. }
      destruct Hp' as (p' & Hp' & Hst).
      exists (outputs p' out_dir). split.
      - rewrite (outputs_same_stem p' p) by done.
        apply elem_of_outputs. eauto.
      - apply list_elem_of_fmap. eauto. }
    pose proof (submseteq_length _ _ (NoDup_submseteq _ _ Hl Hin)) as Hle.
    rewrite concat_outputs_length in Hle. lia.
  - (* the console *)
    destruct (reports_stdout _ _ _ _ Hreps) as (lines & Hlines & Hall).
    exists lines. split; [|done].
    change (Print ?h :: ?t) with ([Print h] ++ t).
    by rewrite stdout_app, Hlines.
  - (* the later file's outputs are what is left *)
    intros Hapart img2 lo Hopen Hout Hfree Hlast s Hs.
    pose proof (main_batch_run _ _ _ _ _ _ Hrun) as Hbatch. fold images in Hbatch.
    rewrite batch_nonempty in Hbatch by done.
    destruct Hrun as [_ _ _ Hin _].
    pose proof (with_dir_listing in_dir out_dir w listing Hin) as Hin0.
    destruct (process_all_closed listing lo images in_dir out_dir mode
                (mkWorld (files (with_dir out_dir w))
                   (trace (with_dir out_dir w) ++
                    [Print (header_line (length images) in_dir out_dir mode)]))
                lo Hapart (select_images_parent in_dir listing) Hin0 Hout
                (fun n => eq_refl)) as [Hclosed _].
    rewrite Hclosed in Hbatch. rewrite Hbatch in Hmain. injection Hmain as <-.
    eexists. split; [cbn [files]; apply lookup_insert_eq|].
    rewrite lookup_apply_writes.
    set (n := name (out_path p2 out_dir s)).
    set (d := encode_png (transform mode img2 s)).
    assert (Hlw : last_write n (writes (batch_events listing lo images out_dir mode)) = Some d).
    { rewrite Himages.
      change (p2 :: l3) with ([p2] ++ l3).
      rewrite !batch_events_app, !writes_app, !last_write_app.
      rewrite (last_write_none n (writes (batch_events listing lo l3 out_dir mode))).
      2:{ intros q dq Hq Hname.
          destruct (batch_events_writes _ _ _ _ _ _ _ Hq) as (p & s' & Hp & Hs' & ->).
          assert (Heq : out_path p out_dir s' = out_path p2 out_dir s).
          { unfold out_path in *. simpl in Hname. unfold n in Hname. simpl in Hname.
            by rewrite Hname. }
          destruct (out_path_inj _ _ _ _ _ Hs' Hs Heq) as [Hst _].
          by apply (Hlast p). }
      assert (Hev : batch_events listing lo [p2] out_dir mode =
                ((fun s => Write (out_path p2 out_dir s)
                             (encode_png (transform mode img2 s))) <$> SIZES)
                ++ [Print (ok_line p2)]).
      { unfold batch_events. cbn [fmap list_fmap concat]. rewrite app_nil_r.
        unfold file_events. rewrite Hopen. by rewrite save_events_free. }
      rewrite Hev, writes_app, writes_of_saves.
      assert (Hnil : forall l, writes [Print l] = []) by done.
      rewrite Hnil, app_nil_r.
      rewrite (last_write_NoDup _ (out_path p2 out_dir s) d); [done| |].
      - rewrite <- list_fmap_compose. apply NoDup_fmap_2_strong.
        + intros s1 s2 Hs1 Hs2 Hname. cbn in Hname.
          assert (Heq : out_path p2 out_dir s1 = out_path p2 out_dir s2).
          { unfold out_path. by rewrite Hname. }
          by destruct (out_path_inj _ _ _ _ _ Hs1 Hs2 Heq).
        + apply (bool_decide_unpack _). by vm_compute.
      - apply list_elem_of_fmap. by exists s. }
    by rewrite Hlw.
Qed.

End WithCodecs.
End Outputs.

(** ** The properties at work on concrete pictures and directories *)

Module Cases.
Import Pillow Py Sys Script Spec Examples.
Import Transforms Properties Rerun Outputs.

#[local] Existing Instance simple_kernels.
#[local] Existing Instance simple_codecs.

Ltac by_computation := apply (bool_decide_unpack _); vm_compute; exact I.

(** The scenarios of the specification: an 800 x 600 photograph fits a
    128 square as 128 x 96 at offset (0, 16); turned by its orientation tag
    it fits as 96 x 128; in cover mode its central 600 x 600 is cropped. *)
Example photo_fit_128 :
  im_size (fit_thumb photo 128) = (128, 96)%Z /\
  ((128 - width (fit_thumb photo 128)) `div` 2 = 0)%Z /\
  ((128 - height (fit_thumb photo 128)) `div` 2 = 16)%Z.
Proof. by vm_compute. Qed.

Example photo_rotated_fit_128 :
  im_size (exif_transpose photo_rotated) = (600, 800)%Z /\
  im_size (fit_thumb photo_rotated 128) = (96, 128)%Z.
Proof. by vm_compute. Qed.

Example photo_cover_256 :
  im_size (make_square_cover photo 256) = (256, 256)%Z /\
  Z.min (width photo) (height photo) = 600%Z /\
  ((width photo - 600) `div` 2 = 100)%Z /\ ((height photo - 600) `div` 2 = 0)%Z.
Proof. by vm_compute. Qed.

(** A batch over four entries, two of them pictures. *)
Example two_photos_run :
  (run ["prog"; "/in"; "/out"] (world_of two_photos)).1 = 0%Z /\
  stdout (trace (run ["prog"; "/in"; "/out"] (world_of two_photos)).2) =
    ["Verarbeite 2 Dateien aus /in → /out (mode=fit)"; "OK  : a.jpg"; "OK  : b.PNG"] /\
  length (writes (trace (run ["prog"; "/in"; "/out"] (world_of two_photos)).2)) = 12%nat.
Proof. by vm_compute. Qed.

(** An empty input directory: the message and status 0, nothing written. *)
Example empty_directory_run :
  run ["prog"; "/in"; "/out"] (world_of ∅) =
    (0%Z, mkWorld {[ "/in" := Dir ∅; "/out" := Dir ∅ ]}
            [Print "Keine unterstützten Bilddateien im Eingabeordner gefunden."]).
Proof. by vm_compute. Qed.


Lemma batch_run_two_photos :
  batch_run ["prog"; "/in"; "/out"] (world_of two_photos) "/in" "/out" "fit" two_photos.
Proof.
  split; [reflexivity|reflexivity|reflexivity|reflexivity|].
  intros data. vm_compute. discriminate.
Defined.


Lemma batch_run_same_stem :
  batch_run ["prog"; "/in"; "/out"; "COVER"] (world_of same_stem)
            "/in" "/out" "cover" same_stem.
Proof.
  split; [reflexivity|reflexivity|by vm_compute|reflexivity|].
  intros data. vm_compute. discriminate.
Defined.



(** A 20 x 10 icon in fit mode at 32 keeps its 20 x 10 pixels. *)
Lemma make_square_fit_no_upscale_witness :
  (width (exif_transpose icon) <= 32)%Z /\ (height (exif_transpose icon) <= 32)%Z /\
  im_size (fit_thumb icon 32) = im_size (exif_transpose icon).
Proof.
  assert (Hw : (width (exif_transpose icon) <= 32)%Z) by (vm_compute; discriminate).
  assert (Hh : (height (exif_transpose icon) <= 32)%Z) by (vm_compute; discriminate).
  pose proof (make_square_fit_no_upscale icon 32 Hw Hh) as H.
  cbv zeta in H. destruct H as (_ & H1 & _).
  split; [exact Hw|]. split; [exact Hh|exact H1].
Defined.




(** A second run over the two pictures leaves the files as they were. *)
Lemma rerun_reproduces_outputs_witness :
  (forall i o, ["prog"; "/in"; "/out"] !! 1%nat = Some i ->
               ["prog"; "/in"; "/out"] !! 2%nat = Some o -> resolve i <> resolve o) /\
  files (run ["prog"; "/in"; "/out"]
           (run ["prog"; "/in"; "/out"] (world_of two_photos)).2).2 =
  files (run ["prog"; "/in"; "/out"] (world_of two_photos)).2.
Proof.
  assert (Hapart : forall i o, ["prog"; "/in"; "/out"] !! 1%nat = Some i ->
            ["prog"; "/in"; "/out"] !! 2%nat = Some o -> resolve i <> resolve o).
  { intros i o Hi Ho. injection Hi as <-. injection Ho as <-. discriminate. }
  pose proof (rerun_reproduces_outputs ["prog"; "/in"; "/out"] (world_of two_photos) Hapart)
    as H.
  cbv zeta in H. destruct H as ((_ & H1 & _) & _).
  split; [exact Hapart|exact H1].
Defined.

(** photo.jpg and photo.png: the same six names. *)
Lemma same_stem_overwrites_witness :
  batch_run ["prog"; "/in"; "/out"; "COVER"] (world_of same_stem)
            "/in" "/out" "cover" same_stem /\
  select_images "/in" same_stem =
    [] ++ mkPath "/in" "photo.jpg" :: [] ++ mkPath "/in" "photo.png" :: [] /\
  stem (mkPath "/in" "photo.jpg") = stem (mkPath "/in" "photo.png") /\
  outputs (mkPath "/in" "photo.jpg") "/out" = outputs (mkPath "/in" "photo.png") "/out".
Proof.
  assert (Hsel : select_images "/in" same_stem =
            [] ++ mkPath "/in" "photo.jpg" :: [] ++ mkPath "/in" "photo.png" :: [])
    by (vm_compute; reflexivity).
  assert (Hstem : stem (mkPath "/in" "photo.jpg") = stem (mkPath "/in" "photo.png"))
    by reflexivity.
  pose proof (same_stem_overwrites _ _ _ _ _ _ _ _ _ _ _ batch_run_same_stem Hsel Hstem) as H.
  cbv zeta in H. destruct H as (_ & _ & H1 & _).
  split; [exact batch_run_same_stem|]. split; [exact Hsel|]. split; [exact Hstem|exact H1].
Defined.

(** "--MODE=Cover" runs as "cover" does. *)
Lemma mode_is_case_insensitive_witness :
  lower "--MODE=Cover" ∈ ["cover"; "--mode=cover"] /\
  run ["prog"; "/in"; "/out"; "--MODE=Cover"] (world_of two_photos) =
  run ["prog"; "/in"; "/out"; "cover"] (world_of two_photos).
Proof.
  assert (Hl : lower "--MODE=Cover" ∈ ["cover"; "--mode=cover"]) by by_computation.
  pose proof (mode_is_case_insensitive "prog" "/in" "/out" "--MODE=Cover" []
                (world_of two_photos)) as H.
  destruct H as (_ & _ & H1 & _).
  split; [exact Hl|exact (H1 Hl)].
Defined.

(** Two pictures: the batch has files to process. *)
Lemma outputs_of_a_batch_witness :
  batch_run ["prog"; "/in"; "/out"] (world_of two_photos) "/in" "/out" "fit" two_photos /\
  select_images "/in" two_photos <> [] /\
  exists evs : list (list event),
    new_events (world_of two_photos) (run ["prog"; "/in"; "/out"] (world_of two_photos)).2 =
    Print (header_line (length (select_images "/in" two_photos)) "/in" "/out" "fit")
    :: concat evs.
Proof.
  assert (Hne : select_images "/in" two_photos <> []) by (vm_compute; discriminate).
  pose proof (outputs_of_a_batch _ _ _ _ _ _ batch_run_two_photos Hne) as H.
  cbv zeta in H. destruct H as (evs & H1 & _).
  split; [exact batch_run_two_photos|]. split; [exact Hne|]. exists evs. exact H1.
Defined.

(** C3, as stated, fails.  The name of the 512 output of a.png is taken
    by a sub-directory of the output directory: the processing of a.png
    raises an error (its status line is the error line), and yet its 1024
    output has been written and stays. *)
Lemma partial_outputs_after_error :
  let w' := (run ["prog"; "/in"; "/out"] blocked_world).2 in
  stdout (new_events blocked_world w') =
    ["Verarbeite 1 Dateien aus /in → /out (mode=fit)";
     "FEHLER bei /in/a.png: [Errno 21] Is a directory: '/out/a_512x512.png'"] /\
  (writes (new_events blocked_world w')).*1 = [mkPath "/out" "a_1024x1024.png"] /\
  (writes (new_events blocked_world w')).*1 <> [] /\
  exists lo data, files w' !! "/out" = Some (Dir lo) /\
                  lo !! "a_1024x1024.png" = Some (RegularFile data).
Proof.
  cbv zeta. split; [by vm_compute|]. split; [by vm_compute|]. split; [by vm_compute|].
  eexists _, _. split; vm_compute; reflexivity.
Qed.


End Cases.

(** ** Every way a run can end *)

Module Outcomes.
Import Pillow Py Sys Script Spec Batch Driver Selection Properties Rerun.
Local Open Scope script_scope.

Section WithCodecs.
Context `{K : Kernels} `{C : Codecs}.

Lemma parse_mode_head (rest : list string) (w : World) :
  match mode_of_args ("" :: "" :: "" :: rest) with
  | Some mode => parse_mode (head rest) w = (inr mode, w)
  | None =>
      parse_mode (head rest) w =
        (inl (SystemExit 2),
         mkWorld (files w) (trace w ++ [Print "Ungültiger --mode. Erlaubt: fit | cover"]))
  end.
Proof.
  unfold mode_of_args. destruct rest as [|arg rest]; simpl; [done|].
  destruct (accepted_mode arg) as [mode|] eqn:Hacc.
  - by apply parse_mode_accepted.
  - by apply parse_mode_rejected.
Qed.

Lemma mode_of_args_shift (a b c a' b' c' : string) (rest : list string) :
  mode_of_args (a :: b :: c :: rest) = mode_of_args (a' :: b' :: c' :: rest).
Proof. unfold mode_of_args. by destruct rest. Qed.





(** X3.  When the arguments are in order and the input directory exists
    but the output path is an existing regular file, creating the output
    directory raises an error that nothing catches: the run ends with
    status 1 without having printed a line, in the world it started in. *)
Theorem output_path_is_a_file (argv : list string) (w : World)
    (i o mode : string) (listing : gmap string entry) (data : bytes) :
  mode_of_args argv = Some mode ->
  argv !! 1%nat = Some i -> argv !! 2%nat = Some o ->
  files w !! resolve i = Some (Dir listing) ->
  files w !! resolve o = Some (File data) ->
  run argv w = (1%Z, w) /\
  main argv w = (inl (Exception ("[Errno 17] File exists: '" +:+ resolve o +:+ "'")), w).
Proof.
  intros Hm Hi Ho Hin Hout.
  destruct argv as [|prog [|i' [|o' rest]]]; try done.
  simpl in Hi, Ho. injection Hi as ->. injection Ho as ->.
  pose proof (parse_mode_head rest w) as Hparse.
  rewrite (mode_of_args_shift _ _ _ prog i o), Hm in Hparse.
  assert (Hmain : main (prog :: i :: o :: rest) w =
            (inl (Exception ("[Errno 17] File exists: '" +:+ resolve o +:+ "'")), w)).
  { rewrite main_unfold, (bind_inr _ _ _ _ _ Hparse).
    by apply (check_mkdir_fails _ _ _ _ listing data). }
  split; [|done]. rewrite run_unfold, Hmain. done.
Qed.

End WithCodecs.
End Outcomes.

(** ** What a run does to the files *)

Module Footprint.
Import Pillow Py Sys Script Spec Batch Driver Selection Names ClosedForm Properties Rerun.
Local Open Scope script_scope.


Lemma last_write_is_Some (ws : list (Path * bytes)) (q : Path) (d : bytes) :
  (q, d) ∈ ws -> is_Some (last_write (name q) ws).
Proof.
  induction ws as [|[q' d'] ws IH] using rev_ind; intros Hin.
  - by apply elem_of_nil in Hin.
  - rewrite last_write_snoc. destruct (decide (name q' = name q)); [eauto|].
    apply IH. apply elem_of_app in Hin as [Hin|Hin]; [done|].
    apply list_elem_of_singleton in Hin. by injection Hin as -> ->.
Qed.

Section WithCodecs.
Context `{K : Kernels} `{C : Codecs}.

(** The saves of a file go into the output directory, to names that no
    sub-directory has. *)
Lemma save_events_targets (lo : gmap string entry) (img : Image) (p : Path)
    (out_dir mode : string) (ss : list Z) (q : Path) (d : bytes) :
  (q, d) ∈ writes (save_events lo img p out_dir mode ss).1 ->
  parent q = out_dir /\ is_directory lo (name q) = false.
Proof.
  induction ss as [|s ss IH]; cbn [save_events].
  - intros Hin. by apply elem_of_nil in Hin.
  - destruct (is_directory lo (name (out_path p out_dir s))) eqn:Hfree.
    { intros Hin. by apply elem_of_nil in Hin. }
    destruct (save_events lo img p out_dir mode ss) as [evs r]. cbn [fst] in *.
    cbn. intros Hin. apply elem_of_cons in Hin as [Heq|Hin]; [|by apply IH].
    injection Heq as -> _. done.
Qed.

(** One file, in any world in which the output directory exists: the
    world it leaves is the one it found with its writes applied to the
    listing of the output directory. *)
Lemma process_image_files (lo : gmap string entry) (p : Path) (out_dir mode : string)
    (w : World) (lo' : gmap string entry) :
  files w !! out_dir = Some (Dir lo') ->
  (forall n, is_directory lo' n = is_directory lo n) ->
  exists evs,
    process_image p out_dir mode w =
      (inr tt,
       mkWorld (<[out_dir := Dir (apply_writes (writes evs) lo')]> (files w))
               (trace w ++ evs)) /\
    (forall n, is_directory (apply_writes (writes evs) lo') n = is_directory lo n) /\
    (forall q d, (q, d) ∈ writes evs ->
                 parent q = out_dir /\ is_directory lo (name q) = false).
Proof.
  intros Hout Hdir. rewrite process_image_unfold. unfold try_except, bind at 1.
  destruct (Image_open_cases p w) as [[e He]|(img & Himg & _)].
  - rewrite He. exists [Print (error_line p e)]. split; [|split; [done|]].
    + unfold print. cbn [writes omap apply_writes foldl].
      destruct w as [f t]. cbn [files trace] in *. by rewrite insert_id.
    + intros q d Hin. by apply elem_of_nil in Hin.
  - rewrite Himg. unfold bind at 1.
    destruct (save_loop_closed lo img p out_dir mode SIZES w lo' Hout Hdir) as [Hloop Hdir'].
    pose proof (save_events_targets lo img p out_dir mode SIZES) as Htargets.
    destruct (save_events lo img p out_dir mode SIZES) as [evs r]. cbn [fst snd] in *.
    rewrite Hloop.
    assert (Hw : forall line, writes (evs ++ [Print line]) = writes evs).
    { intros line. by rewrite writes_app, app_nil_r. }
    destruct r as [e|].
    + exists (evs ++ [Print (error_line p e)]). rewrite Hw.
      split; [|done]. unfold print. cbn [files trace]. by rewrite <- app_assoc.
    + exists (evs ++ [Print (ok_line p)]). rewrite Hw.
      split; [|done]. unfold print. cbn [files trace]. by rewrite <- app_assoc.
Qed.

(** The loop over the matched files, likewise. *)
Lemma process_all_files (lo : gmap string entry) (images : list Path)
    (out_dir mode : string) (w : World) (lo' : gmap string entry) :
  files w !! out_dir = Some (Dir lo') ->
  (forall n, is_directory lo' n = is_directory lo n) ->
  exists evs,
    process_all images out_dir mode w =
      (inr tt,
       mkWorld (<[out_dir := Dir (apply_writes (writes evs) lo')]> (files w))
               (trace w ++ evs)) /\
    (forall q d, (q, d) ∈ writes evs ->
                 parent q = out_dir /\ is_directory lo (name q) = false).
Proof.
  revert w lo'. induction images as [|p images IH]; intros w lo' Hout Hdir.
  - exists []. split; [|intros q d Hin; by apply elem_of_nil in Hin].
    cbn. unfold ret. by rewrite world_eta.
  - destruct (process_image_files lo p out_dir mode w lo' Hout Hdir)
      as (ev & Hstep & Hdir1 & Ht1).
    set (w1 := mkWorld (<[out_dir := Dir (apply_writes (writes ev) lo')]> (files w))
                       (trace w ++ ev)) in *.
    assert (Hout1 : files w1 !! out_dir = Some (Dir (apply_writes (writes ev) lo')))
      by (unfold w1; cbn [files]; by rewrite lookup_insert_eq).
    destruct (IH w1 _ Hout1 Hdir1) as (evs & Hrest & Ht).
    exists (ev ++ evs). split.
    + unfold process_all in *. rewrite for_each_cons. unfold bind. rewrite Hstep, Hrest.
      unfold w1. cbn [files trace].
      by rewrite insert_insert_eq, writes_app, apply_writes_app, <- app_assoc.
    + intros q d Hin. rewrite writes_app in Hin.
      apply elem_of_app in Hin as [Hin|Hin]; eauto.
Qed.

(** The world a batch leaves: the one it started in, with the output
    directory holding its old listing with the writes of the run applied. *)
Lemma run_files (argv : list string) (w : World)
    (in_dir out_dir mode : string) (listing : gmap string entry) :
  batch_run argv w in_dir out_dir mode listing ->
  let lo := match files w !! out_dir with Some (Dir lo) => lo | _ => ∅ end in
  let ws := writes (new_events w (run argv w).2) in
  files (run argv w).2 = <[out_dir := Dir (apply_writes ws lo)]> (files w) /\
  (forall q d, (q, d) ∈ ws -> parent q = out_dir /\ is_directory lo (name q) = false).
Proof.
  intros Hrun lo ws. subst ws. rewrite run_unfold. cbn [snd].
  rewrite (main_batch_run _ _ _ _ _ _ Hrun).
  destruct Hrun as [_ _ _ Hin Hfree].
  pose proof (with_dir_out out_dir w Hfree) as Hout0. fold lo in Hout0.
  pose proof (with_dir_trace out_dir w) as Htr0.
  assert (Hfiles0 : forall l, <[out_dir := Dir l]> (files (with_dir out_dir w)) =
                              <[out_dir := Dir l]> (files w)).
  { intros l. unfold with_dir. destruct (files w !! out_dir); [done|].
    cbn [files]. by rewrite insert_insert_eq. }
  set (images := select_images in_dir listing).
  destruct (decide (images = [])) as [Hempty|Hne].
  - rewrite Hempty, batch_empty. cbn [snd files].
    erewrite new_events_app by (cbn [trace]; by rewrite Htr0).
    split; [|intros q d Hq; by apply elem_of_nil in Hq].
    cbn. rewrite <- Hfiles0. by rewrite insert_id.
  - rewrite batch_nonempty by done.
    set (hd := Print (header_line (length images) in_dir out_dir mode)).
    destruct (process_all_files lo images out_dir mode
                (mkWorld (files (with_dir out_dir w)) (trace (with_dir out_dir w) ++ [hd]))
                lo Hout0 (fun n => eq_refl)) as (evs & Hall & Htargets).
    rewrite Hall. cbn [snd files trace].
    erewrite (new_events_app w _ (hd :: evs))
      by (cbn [trace]; by rewrite Htr0, <- app_assoc).
    assert (Hws : writes (hd :: evs) = writes evs) by done.
    rewrite Hws. split; [apply Hfiles0|exact Htargets].
Qed.


End WithCodecs.
End Footprint.

(** ** Names: stems, suffixes and the names of the outputs *)

Module Suffixes.
Import Pillow Py Sys Script Spec Batch Driver Selection Names ClosedForm Properties Rerun.
Import Footprint.
Local Open Scope script_scope.

Lemma length_app_str (a b : string) :
  String.length (a +:+ b) = (String.length a + String.length b)%nat.
Proof. induction a as [|c a IH]; [done|]. cbn. by rewrite <- IH. Qed.

(** The last occurrence in a string that ends with [b] is the last
    occurrence in [b], when there is one. *)
Lemma rfind_app (a b : string) (c : ascii) :
  (0 <= rfind b c)%Z ->
  rfind (a +:+ b) c = (Z.of_nat (String.length a) + rfind b c)%Z.
Proof.
  intros Hb. induction a as [|x a IH].
  - change ("" +:+ b) with b. simpl. lia.
  - change (String x a +:+ b) with (String x (a +:+ b)). cbn [rfind String.length].
    rewrite IH. destruct (0 <=? _)%Z eqn:E; [lia|]. apply Z.leb_gt in E. lia.
Qed.

Lemma drop_str_app (a b : string) (r : nat) :
  drop_str (String.length a + r) (a +:+ b) = drop_str r b.
Proof. induction a as [|x a IH]; [done|]. exact IH. Qed.

Lemma take_str_app (a b : string) (r : nat) :
  take_str (String.length a + r) (a +:+ b) = a +:+ take_str r b.
Proof.
  induction a as [|x a IH]; [done|].
  change (String x a +:+ b) with (String x (a +:+ b)). cbn. by rewrite IH.
Qed.

Lemma take_drop_str (i : nat) (s : string) : take_str i s +:+ drop_str i s = s.
Proof.
  revert s. induction i as [|i IH]; intros s; [done|].
  destruct s as [|c s]; [done|]. cbn.
  change (String c (take_str i s) +:+ drop_str i s)
    with (String c (take_str i s +:+ drop_str i s)). by rewrite IH.
Qed.

(** What starts at the last occurrence of a character starts with it. *)
Lemma drop_str_rfind (s : string) (c : ascii) :
  (0 <= rfind s c)%Z -> exists r, drop_str (Z.to_nat (rfind s c)) s = String c r.
Proof.
  induction s as [|a s IH]; cbn [rfind]; [lia|].
  destruct (0 <=? rfind s c)%Z eqn:E.
  - apply Z.leb_le in E. intros _. destruct (IH E) as [r Hr]. exists r.
    replace (Z.to_nat (rfind s c + 1)) with (S (Z.to_nat (rfind s c))) by lia. exact Hr.
  - destruct (decide (a = c)) as [->|]; [|lia]. intros _. by exists s.
Qed.

(** A name is its stem followed by its suffix. *)
Lemma name_stem_suffix (p : Path) : name p = stem p +:+ suffix p.
Proof.
  unfold stem, suffix. destruct (_ && _).
  - by rewrite take_drop_str.
  - induction (name p) as [|c s IH]; [done|].
    change (String c s +:+ "") with (String c (s +:+ "")). by rewrite <- IH.
Qed.

Lemma suffix_shape (p : Path) : suffix p = "" \/ exists r, suffix p = String "." r.
Proof.
  unfold suffix. destruct (_ && _) eqn:E; [|by left].
  right. apply andb_true_iff in E as [E _]. apply Z.ltb_lt in E.
  apply drop_str_rfind. lia.
Qed.

(** The suffix and the stem of a name that ends in a dot-free, non-empty
    extension after a non-empty front. *)
Lemma suffix_of_ending (d front ext : string) :
  front <> "" -> ext <> "" -> occurs "." ext = false ->
  suffix (mkPath d (front +:+ String "." ext)) = String "." ext /\
  stem (mkPath d (front +:+ String "." ext)) = front.
Proof.
  intros Hfront Hext Hdot.
  assert (Hr : rfind (String "." ext) "." = 0%Z).
  { cbn [rfind]. assert (Hn : rfind ext "." = (-1)%Z).
    { clear Hext. induction ext as [|c e IH]; [done|]. cbn [rfind occurs] in *.
      destruct (decide (c = "."%char)); [done|]. by rewrite IH. }
    by rewrite Hn. }
  assert (Hi : rfind (front +:+ String "." ext) "." = Z.of_nat (String.length front)).
  { rewrite rfind_app; lia. }
  assert (Hlf : (0 < String.length front)%nat) by (destruct front; [done|simpl; lia]).
  assert (Hle : (0 < String.length ext)%nat) by (destruct ext; [done|simpl; lia]).
  unfold suffix, stem. cbn [name]. rewrite Hi, length_app_str. cbn [String.length].
  assert (Hcond : (0 <? Z.of_nat (String.length front))%Z &&
                  (Z.of_nat (String.length front) <?
                   Z.of_nat (String.length front + S (String.length ext)) - 1)%Z = true).
  { apply andb_true_iff. split; apply Z.ltb_lt; lia. }
  rewrite Hcond, Nat2Z.id.
  pose proof (drop_str_app front (String "." ext) 0) as Hd.
  pose proof (take_str_app front (String "." ext) 0) as Ht.
  rewrite Nat.add_0_r in Hd, Ht. rewrite Hd, Ht. split; [done|].
  cbn [take_str]. clear. induction front as [|c f IH]; [done|].
  change (String c f +:+ "") with (String c (f +:+ "")). by rewrite IH.
Qed.

Section WithCodecs.
Context `{K : Kernels} `{C : Codecs}.

Lemma out_name_ending (p : Path) (s : Z) :
  s ∈ SIZES ->
  name (out_path p "" s) =
    (stem p +:+ "_" +:+ pretty s +:+ "x" +:+ pretty s) +:+ String "." "png".
Proof.
  unfold SIZES, out_path. cbn [name]. intros Hs.
  assert (Happ : forall a b c : string, (a +:+ b) +:+ c = a +:+ (b +:+ c)).
  { intros a b c. induction a as [|x a IH]; [done|].
    change (String x a +:+ b) with (String x (a +:+ b)).
    change (String x (a +:+ b) +:+ c) with (String x ((a +:+ b) +:+ c)).
    by rewrite IH. }
  repeat (apply elem_of_cons in Hs as [->|Hs]; [by rewrite Happ|]).
  by apply elem_of_nil in Hs.
Qed.

Lemma out_path_suffix_stem (p : Path) (out_dir : string) (s : Z) :
  s ∈ SIZES ->
  suffix (out_path p out_dir s) = ".png" /\
  stem (out_path p out_dir s) = stem p +:+ "_" +:+ pretty s +:+ "x" +:+ pretty s.
Proof.
  intros Hs. set (q := out_path p out_dir s).
  assert (Hname : name q = (stem p +:+ "_" +:+ pretty s +:+ "x" +:+ pretty s)
                           +:+ String "." "png") by by apply out_name_ending.
  assert (Hfront : stem p +:+ "_" +:+ pretty s +:+ "x" +:+ pretty s <> "").
  { destruct (stem p); discriminate. }
  destruct (suffix_of_ending out_dir _ "png" Hfront ltac:(done) ltac:(done)) as [Hsuf Hstem].
  rewrite <- Hname in Hsuf, Hstem. done.
Qed.

Lemma out_path_supported (p : Path) (out_dir : string) (s : Z) :
  s ∈ SIZES -> lower (suffix (out_path p out_dir s)) ∈ SUPPORTED_SUFFIXES.
Proof.
  intros Hs. destruct (out_path_suffix_stem p out_dir s Hs) as [-> _].
  apply (bool_decide_unpack _). by vm_compute.
Qed.

(** X5.  The name of an output: its suffix is ".png" and its stem is the
    stem of the input followed by _{size}x{size}; it is therefore itself a
    name the batch driver matches, and it is never the name of the input
    it was made from, so that a file is not overwritten while it is being
    processed even when the output directory is the input directory. *)
Theorem output_names (p : Path) (out_dir : string) (s : Z) :
  s ∈ SIZES ->
  let q := out_path p out_dir s in
  suffix q = ".png" /\
  stem q = stem p +:+ "_" +:+ pretty s +:+ "x" +:+ pretty s /\
  lower (suffix q) ∈ SUPPORTED_SUFFIXES /\
  name q <> name p /\
  out_path p (parent p) s <> p.
Proof.
  intros Hs q.
  destruct (out_path_suffix_stem p out_dir s Hs) as [Hsuf Hstem]. fold q in Hsuf, Hstem.
  assert (Hne : name q <> name p).
  { intros Heq. rewrite (name_stem_suffix p) in Heq. unfold q, out_path in Heq.
    cbn [name] in Heq. apply (inj (String.app (stem p))) in Heq.
    destruct (suffix_shape p) as [E|[r E]]; rewrite E in Heq; discriminate. }
  split; [done|]. split; [done|]. split; [by apply out_path_supported|].
  split; [done|]. intros Heq. apply Hne. unfold q. by rewrite <- Heq at 2.
Qed.

Lemma lower_char_dot (c : ascii) : lower_char c = "."%char <-> c = "."%char.
Proof.
  split; [|by intros ->]. unfold lower_char.
  destruct ((65 <=? nat_of_ascii c)%nat && (nat_of_ascii c <=? 90)%nat) eqn:E; [|done].
  apply andb_true_iff in E as [H1%Nat.leb_le H2%Nat.leb_le].
  intros Heq. apply (f_equal nat_of_ascii) in Heq.
  rewrite nat_ascii_embedding in Heq by lia.
  assert (Hdot : nat_of_ascii "."%char = 46%nat) by reflexivity. lia.
Qed.

Lemma occurs_dot_lower (s : string) : occurs "." (lower s) = occurs "." s.
Proof.
  induction s as [|c s IH]; [done|]. cbn [lower occurs]. rewrite IH.
  destruct (decide (lower_char c = "."%char)) as [E|E], (decide (c = "."%char)) as [E'|E'];
    try done.
  - destruct E'. by apply lower_char_dot.
  - destruct E. by apply lower_char_dot.
Qed.

(** An ending that lowers to one of the supported suffixes is a dot
    followed by a non-empty extension without a dot. *)
Lemma supported_ending (ext : string) :
  lower ext ∈ SUPPORTED_SUFFIXES ->
  exists r, ext = String "." r /\ r <> "" /\ occurs "." r = false.
Proof.
  intros Hin.
  assert (Hshape : exists r', lower ext = String "." r' /\ r' <> "" /\ occurs "." r' = false).
  { unfold SUPPORTED_SUFFIXES in Hin.
    repeat (apply elem_of_cons in Hin as [->|Hin]; [by eexists|]).
    by apply elem_of_nil in Hin. }
  destruct Hshape as (r' & Hl & Hne & Hocc).
  destruct ext as [|c r]; [done|]. cbn [lower] in Hl. injection Hl as Hc Hr.
  apply lower_char_dot in Hc as ->. exists r. split; [done|]. split.
  - intros ->. by subst r'.
  - by rewrite <- occurs_dot_lower, Hr.
Qed.

(** X6.  The batch driver matches exactly the regular files of the
    input directory whose name is a non-empty front followed by an ending
    that, lowered, is one of the eight supported suffixes.  A file named
    by a suffix alone (".png") is not matched. *)
Theorem selection_by_ending (in_dir : string) (listing : gmap string entry) (p : Path) :
  (p ∈ select_images in_dir listing <->
   parent p = in_dir /\
   (exists data, listing !! name p = Some (RegularFile data)) /\
   exists front ext,
     front <> "" /\ name p = front +:+ ext /\ lower ext ∈ SUPPORTED_SUFFIXES) /\
  (lower (name p) ∈ SUPPORTED_SUFFIXES -> p ∉ select_images in_dir listing).
Proof.
  assert (Hiff : lower (suffix p) ∈ SUPPORTED_SUFFIXES <->
            exists front ext,
              front <> "" /\ name p = front +:+ ext /\ lower ext ∈ SUPPORTED_SUFFIXES).
  { split.
    - intros Hsup. exists (stem p), (suffix p).
      split; [|split; [apply name_stem_suffix|done]].
      destruct (supported_ending _ Hsup) as (r & Hsuf & _).
      unfold suffix, stem in *. destruct (_ && _) eqn:E; [|done].
      apply andb_true_iff in E as [E1%Z.ltb_lt E2%Z.ltb_lt].
      destruct (name p) as [|c n]; [simpl in E2; lia|].
      destruct (Z.to_nat (rfind (String c n) ".")) as [|i] eqn:Ei; [lia|]. done.
    - intros (front & ext & Hfront & Hname & Hsup).
      destruct (supported_ending _ Hsup) as (r & -> & Hr & Hocc).
      destruct (suffix_of_ending (parent p) front r Hfront Hr Hocc) as [Hsuf _].
      rewrite <- Hname in Hsuf.
      assert (Hp : mkPath (parent p) (name p) = p) by by destruct p.
      rewrite Hp in Hsuf. by rewrite Hsuf. }
  split.
  - rewrite select_images_elem, Hiff. done.
  - intros Hall Hin. apply select_images_elem in Hin as (_ & _ & Hsup).
    destruct (supported_ending _ Hall) as (r & Hname & Hr & Hocc).
    assert (Hrf : rfind (name p) "." = 0%Z).
    { rewrite Hname. cbn [rfind].
      assert (Hn : rfind r "." = (-1)%Z).
      { clear Hr Hname. induction r as [|c e IH]; [done|]. cbn [rfind occurs] in *.
        destruct (decide (c = "."%char)); [done|]. by rewrite IH. }
      by rewrite Hn. }
    unfold suffix in Hsup. rewrite Hrf in Hsup. cbn in Hsup.
    apply (bool_decide_pack _) in Hsup. by vm_compute in Hsup.
Qed.

(** X7.  When the output directory is the input directory, the outputs
    of a batch are matched by the next listing of that directory, and so
    is every file the batch itself matched: a second run in place
    processes the outputs of the first as well. *)
Theorem in_place_outputs_become_inputs (argv : list string) (w : World)
    (dir mode : string) (listing : gmap string entry) :
  batch_run argv w dir dir mode listing ->
  let w' := (run argv w).2 in
  exists listing',
    files w' !! dir = Some (Dir listing') /\
    (forall q data, (q, data) ∈ writes (new_events w w') ->
       q ∈ select_images dir listing') /\
    (forall p, p ∈ select_images dir listing -> p ∈ select_images dir listing').
Proof.
  intros Hrun w'.
  destruct (run_files _ _ _ _ _ _ Hrun) as [Hfiles Htargets].
  fold w' in Hfiles, Htargets.
  assert (Hlisting : files w !! dir = Some (Dir listing)) by by destruct Hrun.
  rewrite Hlisting in Hfiles, Htargets.
  set (ws := writes (new_events w w')) in *.
  exists (apply_writes ws listing). split; [by rewrite Hfiles, lookup_insert_eq|].
  assert (Hws : forall q data, (q, data) ∈ ws ->
            exists p s, p ∈ select_images dir listing /\ s ∈ SIZES /\ q = out_path p dir s).
  { intros q data Hq. unfold ws, w' in Hq. rewrite run_unfold in Hq. cbn [snd] in Hq.
    destruct (decide (select_images dir listing = [])) as [Hempty|Hne].
    - rewrite (batch_run_empty _ _ _ _ _ _ Hrun Hempty) in Hq. cbn [snd] in Hq.
      erewrite new_events_app in Hq by reflexivity. by apply elem_of_nil in Hq.
    - destruct (batch_run_trace _ _ _ _ _ _ Hrun Hne) as (w1 & evs & Hmain & Ht & Hreps).
      rewrite Hmain in Hq. cbn [snd] in Hq. rewrite (new_events_app _ _ _ Ht) in Hq.
      change (Print ?l :: ?t) with ([Print l] ++ t) in Hq.
      rewrite writes_app in Hq. cbn in Hq.
      exact (reports_writes _ _ _ _ Hreps q data Hq). }
  split.
  - intros q data Hq. apply select_images_elem.
    destruct (Hws q data Hq) as (p & s & _ & Hs & ->).
    split; [done|]. split; [|by apply out_path_supported].
    rewrite lookup_apply_writes.
    destruct (last_write_is_Some ws _ data Hq) as [d' ->]. eauto.
  - intros p Hp. apply select_images_elem in Hp as (Hpar & [data Hdata] & Hsup).
    apply select_images_elem. split; [done|]. split; [|done].
    rewrite lookup_apply_writes. destruct (last_write (name p) ws); eauto.
Qed.

End WithCodecs.
End Suffixes.

(** ** More on the two transforms *)

Module Letterbox.
Import Pillow Script Spec Geometry Transforms.
Local Open Scope Z_scope.

Lemma near_integers (a b : Z) : (Qabs (inject_Z a - inject_Z b) < 1)%Q -> a = b.
Proof.
  intros Habs. apply Qabs_Qlt_condition in Habs as [Hlo Hhi].
  unfold Qlt, Qminus, Qplus, Qopp in Hlo, Hhi. simpl in Hlo, Hhi. lia.
Qed.

Section WithKernels.
Context `{K : Kernels}.

Lemma exif_transpose_idemp (img : Image) :
  exif_transpose (exif_transpose img) = exif_transpose img.
Proof.
  unfold exif_transpose at 2 3.
  destruct (orientation_method (default 1 (exif_orientation img))) as [method|] eqn:E.
  - reflexivity.
  - unfold copy, exif_transpose. by rewrite E.
Qed.

(** X8.  Fit mode pads on one axis at most.  A source that exceeds the
    square in some direction is scaled until its longer side is exactly
    the side of the square: the content then starts at the edge of the
    canvas in that direction, and the transparent bars, if any, lie along
    the other one. *)
Theorem fit_pads_one_axis (img : Image) (size : Z) :
  well_formed img -> 0 < size ->
  let src := exif_transpose img in
  let content := fit_thumb img size in
  let x := (size - width content) `div` 2 in
  let y := (size - height content) `div` 2 in
  ~ (width src <= size /\ height src <= size) ->
  (height src <= width src -> width content = size /\ x = 0) /\
  (width src <= height src -> height content = size /\ y = 0) /\
  (x = 0 \/ y = 0).
Proof.
  intros Hwf Hs src content x y Hbig.
  destruct (fit_thumb_geometry img size Hwf Hs) as (_ & _ & Hqw & Hqh).
  fold src content in Hqw, Hqh.
  destruct (exif_transpose_well_formed img Hwf) as [Hw Hh]. fold src in Hw, Hh.
  pose proof (inject_Z_pos _ Hw) as HW. pose proof (inject_Z_pos _ Hh) as HH.
  pose proof (inject_Z_pos _ Hs) as HS.
  assert (Hwide : height src <= width src -> width content = size /\ x = 0).
  { intros Hle. assert (Hgt : size < width src) by lia.
    apply inject_Z_le in Hle. apply inject_Z_lt in Hgt.
    assert (Hscale : (fit_scale src size * inject_Z (width src) == inject_Z size)%Q).
    { unfold fit_scale, scale_factor. cbn [fst snd].
      assert (H1 : (inject_Z size / inject_Z (width src) <=
                    inject_Z size / inject_Z (height src))%Q).
      { apply Qle_shift_div_l; [done|].
        assert (E : (inject_Z size / inject_Z (width src) * inject_Z (height src) ==
                     inject_Z size * inject_Z (height src) / inject_Z (width src))%Q)
          by (field; lra).
        rewrite E. apply Qle_shift_div_r; [done|]. nra. }
      assert (H2 : (inject_Z size / inject_Z (width src) <= 1)%Q).
      { apply Qle_shift_div_r; [done|]. lra. }
      rewrite (Q.min_l _ _ H1), (Q.min_r _ _ H2). field. lra. }
    rewrite Hscale in Hqw. apply near_integers in Hqw.
    split; [done|]. subst x. by rewrite Hqw, Z.sub_diag. }
  assert (Htall : width src <= height src -> height content = size /\ y = 0).
  { intros Hle. assert (Hgt : size < height src) by lia.
    apply inject_Z_le in Hle. apply inject_Z_lt in Hgt.
    assert (Hscale : (fit_scale src size * inject_Z (height src) == inject_Z size)%Q).
    { unfold fit_scale, scale_factor. cbn [fst snd].
      assert (H1 : (inject_Z size / inject_Z (height src) <=
                    inject_Z size / inject_Z (width src))%Q).
      { apply Qle_shift_div_l; [done|].
        assert (E : (inject_Z size / inject_Z (height src) * inject_Z (width src) ==
                     inject_Z size * inject_Z (width src) / inject_Z (height src))%Q)
          by (field; lra).
        rewrite E. apply Qle_shift_div_r; [done|]. nra. }
      assert (H2 : (inject_Z size / inject_Z (height src) <= 1)%Q).
      { apply Qle_shift_div_r; [done|]. lra. }
      rewrite (Q.min_r _ _ H1), (Q.min_r _ _ H2). field. lra. }
    rewrite Hscale in Hqh. apply near_integers in Hqh.
    split; [done|]. subst y. by rewrite Hqh, Z.sub_diag. }
  split; [done|]. split; [done|].
  destruct (Z.le_ge_cases (height src) (width src)) as [Hle|Hle].
  - left. by apply Hwide.
  - right. by apply Htall.
Qed.

(** X9.  The orientation of the input counts once.  Both transforms
    give the same image for an input and for that input already
    normalised, and what they return asks for no further transposition. *)
Theorem orientation_counts_once (img : Image) (size : Z) :
  make_square_fit (exif_transpose img) size = make_square_fit img size /\
  make_square_cover (exif_transpose img) size = make_square_cover img size /\
  exif_transpose (make_square_fit img size) = make_square_fit img size /\
  exif_transpose (make_square_cover img size) = make_square_cover img size.
Proof.
  split; [|split; [|split]].
  - unfold make_square_fit. by rewrite exif_transpose_idemp.
  - unfold make_square_cover. by rewrite exif_transpose_idemp.
  - reflexivity.
  - assert (Hor : exif_orientation (make_square_cover img size) =
                  exif_orientation (exif_transpose img)).
    { unfold make_square_cover. cbn [im_size].
      destruct (decide _); cbn [convert exif_orientation]; unfold resize;
        destruct (decide _); reflexivity. }
    unfold exif_transpose at 1. rewrite Hor, exif_transpose_normal. reflexivity.
Qed.

(** X10.  Cover mode leaves a square source of the target size as it is:
    the crop is the whole image and nothing is resampled, so that every
    pixel of the output is the pixel of the normalised source at the same
    place (converted to RGBA when the source has no alpha band). *)
Theorem cover_keeps_an_exact_square (img : Image) (size : Z) :
  let src := exif_transpose img in
  width src = size -> height src = size ->
  let out := make_square_cover img size in
  im_size out = (size, size) /\
  mode out = (if decide (mode src = Mode_RGBA \/ mode src = Mode_LA) then mode src
              else Mode_RGBA) /\
  forall i j, 0 <= i < size -> 0 <= j < size ->
    getpixel out i j =
      if decide (mode src = Mode_RGBA \/ mode src = Mode_LA) then getpixel src i j
      else convert_pixel (mode src) Mode_RGBA (getpixel src i j).
Proof.
  intros src Hw Hh out. subst out. unfold make_square_cover. fold src.
  cbn [im_size]. rewrite Hw, Hh, Z.min_id, Z.sub_diag. change (0 `div` 2) with 0.
  set (cropped := crop src (0, 0, 0 + size, 0 + size)).
  assert (Hcs : im_size cropped = (size, size)).
  { unfold cropped, crop, im_size. cbn [width height]. f_equal; lia. }
  assert (Hres : resize cropped (size, size) LANCZOS = cropped).
  { unfold resize. by rewrite decide_True. }
  rewrite Hres.
  assert (Hcm : mode cropped = mode src) by reflexivity.
  assert (Hpx : forall i j, 0 <= i < size -> 0 <= j < size ->
                            getpixel cropped i j = getpixel src i j).
  { intros i j Hi Hj. unfold cropped, crop. cbn [getpixel]. rewrite Hw, Hh.
    assert (Hbox : (0 <=? i + 0) && (i + 0 <? size) && (0 <=? j + 0) && (j + 0 <? size) = true).
    { repeat (apply andb_true_iff; split);
        first [apply Z.leb_le; lia | apply Z.ltb_lt; lia]. }
    rewrite Hbox. f_equal; lia. }
  rewrite Hcm. destruct (decide (mode src = Mode_RGBA \/ mode src = Mode_LA)).
  - split; [done|]. split; [done|]. exact Hpx.
  - split; [done|]. split; [done|]. intros i j Hi Hj.
    cbn [convert getpixel]. by rewrite Hcm, Hpx.
Qed.

End WithKernels.
End Letterbox.

(** ** The further properties on concrete pictures and directories *)

Module MoreCases.
Import Pillow Py Sys Script Spec Examples MoreExamples.
Import Outcomes Footprint Suffixes Letterbox.

#[local] Existing Instance simple_kernels.
#[local] Existing Instance simple_codecs.

Lemma batch_run_in_place :
  batch_run in_place_args (world_of two_photos) "/in" "/in" "fit" two_photos.
Proof.
  split; [reflexivity|reflexivity|reflexivity|reflexivity|].
  intros data. vm_compute. discriminate.
Defined.



(** An output path that is a regular file. *)
Lemma output_path_is_a_file_witness :
  mode_of_args ["prog"; "/in"; "/out"] = Some "fit" /\
  files out_is_file_world !! resolve "/in" = Some (Dir ∅) /\
  files out_is_file_world !! resolve "/out" = Some (File []) /\
  run ["prog"; "/in"; "/out"] out_is_file_world = (1%Z, out_is_file_world).
Proof.
  assert (Hm : mode_of_args ["prog"; "/in"; "/out"] = Some "fit") by reflexivity.
  assert (Hin : files out_is_file_world !! resolve "/in" = Some (Dir ∅)) by reflexivity.
  assert (Hout : files out_is_file_world !! resolve "/out" = Some (File [])) by reflexivity.
  split; [exact Hm|]. split; [exact Hin|]. split; [exact Hout|].
  exact (proj1 (output_path_is_a_file ["prog"; "/in"; "/out"] out_is_file_world
                  "/in" "/out" "fit" ∅ [] Hm eq_refl eq_refl Hin Hout)).
Defined.


(** The 128 output of photo.jpg. *)
Lemma output_names_witness :
  128%Z ∈ SIZES /\
  suffix (out_path (mkPath "/in" "photo.jpg") "/out" 128) = ".png" /\
  stem (out_path (mkPath "/in" "photo.jpg") "/out" 128) = "photo_128x128".
Proof.
  assert (Hs : 128%Z ∈ SIZES) by (apply (bool_decide_unpack _); vm_compute; exact I).
  pose proof (output_names (mkPath "/in" "photo.jpg") "/out" 128 Hs) as H.
  cbv zeta in H. destruct H as (H1 & H2 & _).
  split; [exact Hs|]. split; [exact H1|exact H2].
Defined.

(** A batch in place: the twelve outputs are inputs of the next run. *)
Lemma in_place_outputs_become_inputs_witness :
  batch_run in_place_args (world_of two_photos) "/in" "/in" "fit" two_photos /\
  exists listing',
    files (run in_place_args (world_of two_photos)).2 !! "/in" = Some (Dir listing') /\
    forall p, p ∈ select_images "/in" two_photos -> p ∈ select_images "/in" listing'.
Proof.
  pose proof (in_place_outputs_become_inputs _ _ _ _ _ batch_run_in_place) as H.
  cbv zeta in H. destruct H as (listing' & H1 & _ & H2).
  split; [exact batch_run_in_place|]. exists listing'. split; [exact H1|exact H2].
Defined.

(** The 800 x 600 photograph at 128: bars above and below only. *)
Lemma fit_pads_one_axis_witness :
  well_formed photo /\ (0 < 128)%Z /\
  ~ (width (exif_transpose photo) <= 128 /\ height (exif_transpose photo) <= 128)%Z /\
  width (fit_thumb photo 128) = 128%Z.
Proof.
  assert (Hwf : well_formed photo) by (split; reflexivity).
  assert (Hs : (0 < 128)%Z) by reflexivity.
  assert (Hbig : ~ (width (exif_transpose photo) <= 128 /\
                    height (exif_transpose photo) <= 128)%Z).
  { intros [Hw _]. vm_compute in Hw. by apply Hw. }
  pose proof (fit_pads_one_axis photo 128 Hwf Hs) as H.
  cbv zeta in H. destruct (H Hbig) as (H1 & _).
  split; [exact Hwf|]. split; [exact Hs|]. split; [exact Hbig|].
  apply H1. vm_compute. discriminate.
Defined.

(** The 32 x 32 tile in cover mode at 32. *)
Lemma cover_keeps_an_exact_square_witness :
  width (exif_transpose tile) = 32%Z /\ height (exif_transpose tile) = 32%Z /\
  im_size (make_square_cover tile 32) = (32, 32)%Z.
Proof.
  assert (Hw : width (exif_transpose tile) = 32%Z) by reflexivity.
  assert (Hh : height (exif_transpose tile) = 32%Z) by reflexivity.
  pose proof (cover_keeps_an_exact_square tile 32 Hw Hh) as H.
  cbv zeta in H. destruct H as (H1 & _).
  split; [exact Hw|]. split; [exact Hh|exact H1].
Defined.

End MoreCases.
